(** * spotify_client: credential cache, catalogue lookups and batch validation

    A shallow embedding of [spotify_client.py].  The module keeps two
    globals (the cached token and its expiry), reads the clock, talks to
    the remote service through [requests], and raises Python exceptions.
    All of this is written here as a state-and-exception monad over an
    explicit program state; the outside world (clock, HTTP transport) is
    an interface the development is parametric in.

    Time is counted in whole seconds and JSON numbers are integers; an
    integer too large for a float makes float arithmetic raise, as in
    the interpreter.  The program state also records,
    in order, every request handed to the transport, so that "no network
    call" is a statement about the state.  [requests] and the interpreter
    are described by what they do to the module: [raise_for_status]
    raises for 4xx and 5xx, [resp.json()] yields a value or raises,
    attribute and item access raise on values that do not support them. *)

From stdpp Require Import gmap strings list pretty.

Set Warnings "-register-all".

Local Open Scope string_scope.
Local Open Scope list_scope.
Local Open Scope Z_scope.

(** ** Python values

    What [resp.json()] can produce, and what the module returns: [None],
    booleans, numbers, strings, lists and dictionaries.  Numbers are exact
    integers; floating-point rounding is outside this model.  Dictionaries
    are association lists in insertion order, keys distinct. *)

Inductive value : Type :=
  | VNone
  | VBool (b : bool)
  | VNum (n : Z)
  | VStr (s : string)
  | VList (items : list value)
  | VDict (fields : list (string * value)).

(** Python truthiness ([bool(v)]), as used by [if v], [v and w], [v or w]. *)
Definition truthy (v : value) : bool :=
  match v with
  | VNone => false
  | VBool b => b
  | VNum n => negb (n =? 0)
  | VStr s => negb (String.eqb s "")
  | VList items => match items with [] => false | _ => true end
  | VDict fields => match fields with [] => false | _ => true end
  end.

(** [a or b] *)
Definition py_or (a b : value) : value := if truthy a then a else b.

(** Lookup in a dictionary's items. *)
Fixpoint assoc (k : string) (fields : list (string * value)) : option value :=
  match fields with
  | [] => None
  | (k', v) :: rest => if String.eqb k k' then Some v else assoc k rest
  end.

(** ** Exceptions

    Every class below derives from [Exception].  [SpotifyAuthError] is the
    module's own class; [HTTPError] is what [raise_for_status] raises;
    [RequestException] stands for the transport failures of [requests]
    (connection errors, timeouts); the others are the interpreter's.
    [OverflowError] is raised when an integer too large for a float meets
    a float in arithmetic. *)

Inductive exn : Type :=
  | SpotifyAuthError (msg : string)
  | HTTPError (status : Z)
  | RequestException (detail : string)
  | JSONDecodeError
  | TypeError
  | AttributeError
  | KeyError (key : string)
  | OverflowError.

Inductive outcome (A : Type) : Type :=
  | Ok (a : A)
  | Raised (e : exn).
Arguments Ok {A} a.
Arguments Raised {A} e.

(** ** HTTP messages *)

Inductive http_method := GET | POST.

Record Request := mkRequest {
  req_method : http_method;
  req_url : string;
  req_headers : list (string * string);
  req_data : list (string * string)
}.

(** [json_body] is what [resp.json()] yields: [None] when the body is not
    valid JSON (the call then raises). *)
Record Response := mkResponse {
  status_code : Z;
  text : string;
  json_body : option value
}.

(** ** The outside world

    [clock] is [time.time()]; [transport] performs one HTTP exchange and
    either delivers a response or raises; [b64encode] and [str_other] are
    the library's base64 encoder and [str()] on non-string values. *)

Class Runtime (Env : Type) := {
  clock : Env → Z;
  transport : Request → Env → outcome Response * Env;
  b64encode : string → string;
  str_other : value → string
}.

Definition TOKEN_URL : string := "https://accounts.spotify.com/api/token".
Definition BASE_API_URL : string := "https://api.spotify.com/v1".

(** The message of the configuration failure raised by
    [_get_basic_auth_header]. *)
Definition config_msg : string :=
  "SPOTIFY_CLIENT_ID o SPOTIFY_CLIENT_SECRET no están configurados".

(** The spec's [ConfigurationError] is this [SpotifyAuthError]. *)
Definition ConfigurationError : exn := SpotifyAuthError config_msg.

(** [os.getenv] gives [None] or a string; [not x] holds for [None] and for
    the empty string. *)
Definition env_missing (x : option string) : bool :=
  match x with
  | None => true
  | Some s => String.eqb s ""
  end.

Definition env_str (x : option string) : string := default "None" x.

(** Module constants, read from the environment at import time. *)
Record Config := mkConfig {
  SPOTIFY_CLIENT_ID : option string;
  SPOTIFY_CLIENT_SECRET : option string
}.

(** ** Program state

    The two module globals, the state of the outside world, and the list
    of requests handed to the transport so far (oldest first). *)

Record State (Env : Type) := mkState {
  env : Env;
  sent : list Request;
  _ACCESS_TOKEN : value;
  _ACCESS_TOKEN_EXPIRES_AT : Z
}.
Arguments mkState {Env} _ _ _ _.
Arguments env {Env} _.
Arguments sent {Env} _.
Arguments _ACCESS_TOKEN {Env} _.
Arguments _ACCESS_TOKEN_EXPIRES_AT {Env} _.

Definition initial_state {Env} (e : Env) : State Env :=
  {| env := e; sent := []; _ACCESS_TOKEN := VNone; _ACCESS_TOKEN_EXPIRES_AT := 0 |}.

(** The world moves between two calls: only [env] changes. *)
Definition with_env {Env} (e : Env) (s : State Env) : State Env :=
  {| env := e; sent := sent s; _ACCESS_TOKEN := _ACCESS_TOKEN s;
     _ACCESS_TOKEN_EXPIRES_AT := _ACCESS_TOKEN_EXPIRES_AT s |}.

(** ** The monad: state threaded through, exceptions short-circuit.
    Assignments made before an exception is raised stay in the state. *)

Definition M (Env : Type) (A : Type) : Type := State Env → outcome A * State Env.

Definition ret {Env A} (a : A) : M Env A := fun s => (Ok a, s).
Definition raise {Env A} (e : exn) : M Env A := fun s => (Raised e, s).
Definition bind {Env A B} (m : M Env A) (k : A → M Env B) : M Env B :=
  fun s => match m s with
           | (Ok a, s') => k a s'
           | (Raised e, s') => (Raised e, s')
           end.

(** [try: m  except Exception: h] *)
Definition try_except {Env A} (m : M Env A) (h : exn → M Env A) : M Env A :=
  fun s => match m s with
           | (Ok a, s') => (Ok a, s')
           | (Raised e, s') => h e s'
           end.

Definition lift {Env A} (o : outcome A) : M Env A := fun s => (o, s).

Notation "'let!' x ':=' m 'in' k" := (bind m (fun x => k))
  (at level 10, x name, m at level 100, k at level 200).

Definition read_ACCESS_TOKEN {Env} : M Env value := fun s => (Ok (_ACCESS_TOKEN s), s).
Definition read_ACCESS_TOKEN_EXPIRES_AT {Env} : M Env Z :=
  fun s => (Ok (_ACCESS_TOKEN_EXPIRES_AT s), s).
Definition set_ACCESS_TOKEN {Env} (v : value) : M Env unit :=
  fun s => (Ok tt, {| env := env s; sent := sent s; _ACCESS_TOKEN := v;
                      _ACCESS_TOKEN_EXPIRES_AT := _ACCESS_TOKEN_EXPIRES_AT s |}).
Definition set_ACCESS_TOKEN_EXPIRES_AT {Env} (t : Z) : M Env unit :=
  fun s => (Ok tt, {| env := env s; sent := sent s; _ACCESS_TOKEN := _ACCESS_TOKEN s;
                      _ACCESS_TOKEN_EXPIRES_AT := t |}).

Section Client.

Context {Env : Type} `{RT : Runtime Env}.
Variable cfg : Config.

Definition time_time : M Env Z := fun s => (Ok (clock (env s)), s).

(** One call into [requests]: the request is recorded, the transport
    answers or raises, and the world moves on. *)
Definition send (r : Request) : M Env Response :=
  fun s => let (o, e') := transport r (env s) in
           (o, {| env := e'; sent := sent s ++ [r]; _ACCESS_TOKEN := _ACCESS_TOKEN s;
                  _ACCESS_TOKEN_EXPIRES_AT := _ACCESS_TOKEN_EXPIRES_AT s |}).

Definition requests_post (url : string) (headers data : list (string * string))
  : M Env Response :=
  send (mkRequest POST url headers data).
Definition requests_get (url : string) (headers : list (string * string))
  : M Env Response :=
  send (mkRequest GET url headers []).

(** ** Interpreter operations used by the module *)

(** [resp.json()] *)
Definition resp_json (resp : Response) : outcome value :=
  match json_body resp with
  | Some v => Ok v
  | None => Raised JSONDecodeError
  end.

(** [resp.raise_for_status()]: raises for 4xx and 5xx, nothing otherwise. *)
Definition raise_for_status (resp : Response) : outcome unit :=
  if (400 <=? status_code resp) && (status_code resp <? 600)
  then Raised (HTTPError (status_code resp))
  else Ok tt.

(** [d.get(k, dflt)]: only dictionaries have the method. *)
Definition py_get (d : value) (k : string) (dflt : value) : outcome value :=
  match d with
  | VDict fields => Ok (default dflt (assoc k fields))
  | _ => Raised AttributeError
  end.

(** [d[k]] on a dictionary. *)
Definition py_getitem (d : value) (k : string) : outcome value :=
  match d with
  | VDict fields =>
      match assoc k fields with
      | Some v => Ok v
      | None => Raised (KeyError k)
      end
  | _ => Raised TypeError
  end.

(** The integers from which conversion to a float overflows: those that
    round (to nearest, ties to even) to [2^1024] or beyond, the largest
    float being [2^1024 - 2^971]. *)
Definition float_limit : Z := 2 ^ 1024 - 2 ^ 970.

Definition float_overflows (n : Z) : bool := float_limit <=? Z.abs n.


(** The operand of [now + expires_in - 30], where [now] is a float: an
    integer is converted to a float, which raises [OverflowError] when it
    is too large; booleans are integers in Python; anything else is a
    [TypeError]. *)
Definition py_number (v : value) : outcome Z :=
  match v with
  | VNum n => if float_overflows n then Raised OverflowError else Ok n
  | VBool b => Ok (if b then 1 else 0)
  | _ => Raised TypeError
  end.

(** [for x in v]: lists yield their items, dictionaries their keys,
    strings their characters; the rest is not iterable. *)
Definition py_iter (v : value) : outcome (list value) :=
  match v with
  | VList items => Ok items
  | VDict fields => Ok (map (fun kv => VStr (fst kv)) fields)
  | VStr s => Ok (map (fun c => VStr (String c "")) (String.list_ascii_of_string s))
  | _ => Raised TypeError
  end.

(** Sequencing of interpreter operations that only compute. *)
Definition and_then {A B} (o : outcome A) (k : A → outcome B) : outcome B :=
  match o with
  | Ok a => k a
  | Raised e => Raised e
  end.

(** A list comprehension [[f(x) for x in items]]: left to right, the first
    exception ends it. *)
Fixpoint comprehension {A B} (f : A → outcome B) (items : list A) : outcome (list B) :=
  match items with
  | [] => Ok []
  | x :: rest =>
      and_then (f x) (fun y =>
      and_then (comprehension f rest) (fun ys => Ok (y :: ys)))
  end.

(** [f"{v}"] *)
Definition py_format (v : value) : string :=
  match v with
  | VStr s => s
  | _ => str_other v
  end.

(** ** The module's functions *)

Definition _get_basic_auth_header : M Env string :=
  if env_missing (SPOTIFY_CLIENT_ID cfg) || env_missing (SPOTIFY_CLIENT_SECRET cfg)
  then raise ConfigurationError
  else
    let auth_str := env_str (SPOTIFY_CLIENT_ID cfg) +:+ ":"
                    +:+ env_str (SPOTIFY_CLIENT_SECRET cfg) in
    ret (b64encode auth_str).

(** The part of [get_access_token] after the cache test (lines 42-59). *)
Definition exchange_token (now : Z) : M Env value :=
  let! basic := _get_basic_auth_header in
  let headers := [("Authorization", "Basic " +:+ basic);
                  ("Content-Type", "application/x-www-form-urlencoded")] in
  let data := [("grant_type", "client_credentials")] in
  let! resp := requests_post TOKEN_URL headers data in
  if negb (status_code resp =? 200)
  then raise (SpotifyAuthError
                ("Error obteniendo token de Spotify: "
                 +:+ pretty (status_code resp) +:+ " " +:+ text resp))
  else
    let! payload := lift (resp_json resp) in
    let! token := lift (py_get payload "access_token" VNone) in
    let! _ := set_ACCESS_TOKEN token in
    let! expires_in := lift (py_get payload "expires_in" (VNum 3600)) in
    let! lifetime := lift (py_number expires_in) in
    let! _ := set_ACCESS_TOKEN_EXPIRES_AT (now + lifetime - 30) in
    let! cached := read_ACCESS_TOKEN in
    ret (py_or cached (VStr "")).

Definition get_access_token : M Env value :=
  let! now := time_time in
  let! cached := read_ACCESS_TOKEN in
  let! expires_at := read_ACCESS_TOKEN_EXPIRES_AT in
  if truthy cached && (now <? expires_at)
  then ret cached
  else exchange_token now.

Definition _auth_headers : M Env (list (string * string)) :=
  let! token := get_access_token in
  ret [("Authorization", "Bearer " +:+ py_format token)].

(** [{"id": artist.get("id"), "name": artist.get("name")}] *)
Definition artist_summary (artist : value) : outcome value :=
  and_then (py_get artist "id" VNone) (fun id =>
  and_then (py_get artist "name" VNone) (fun name =>
  Ok (VDict [("id", id); ("name", name)]))).

(** The projection of a track document (lines 74-91), fields evaluated in
    source order. *)
Definition track_record (data : value) : outcome value :=
  and_then (py_get data "id" VNone) (fun id =>
  and_then (py_get data "name" VNone) (fun name =>
  and_then (py_get data "duration_ms" VNone) (fun duration_ms =>
  and_then (py_get data "explicit" VNone) (fun explicit =>
  and_then (py_get data "preview_url" VNone) (fun preview_url =>
  and_then (py_get data "album" (VDict [])) (fun album =>
  and_then (py_get album "id" VNone) (fun album_id =>
  and_then (py_get data "album" (VDict [])) (fun album' =>
  and_then (py_get album' "name" VNone) (fun album_name =>
  and_then (py_get data "artists" (VList [])) (fun artists =>
  and_then (py_iter artists) (fun items =>
  and_then (comprehension artist_summary items) (fun summaries =>
  Ok (VDict [("id", id);
             ("name", name);
             ("duration_ms", duration_ms);
             ("explicit", explicit);
             ("preview_url", preview_url);
             ("album", VDict [("id", album_id); ("name", album_name)]);
             ("artists", VList summaries)]))))))))))))).

Definition get_track_info (spotify_track_id : string) : M Env value :=
  let url := BASE_API_URL +:+ "/tracks/" +:+ spotify_track_id in
  let! headers := _auth_headers in
  let! resp := requests_get url headers in
  if status_code resp =? 404
  then ret (VDict [])
  else
    let! _ := lift (raise_for_status resp) in
    let! data := lift (resp_json resp) in
    lift (track_record data).

(** The projection of an artist document (lines 101-107). *)
Definition artist_record (data : value) : outcome value :=
  and_then (py_get data "id" VNone) (fun id =>
  and_then (py_get data "name" VNone) (fun name =>
  and_then (py_get data "genres" (VList [])) (fun genres =>
  and_then (py_get data "popularity" VNone) (fun popularity =>
  and_then (py_get data "followers" (VDict [])) (fun followers =>
  and_then (py_get followers "total" VNone) (fun total =>
  Ok (VDict [("id", id);
             ("name", name);
             ("genres", genres);
             ("popularity", popularity);
             ("followers", total)]))))))).

Definition get_artist_info (spotify_artist_id : string) : M Env value :=
  let url := BASE_API_URL +:+ "/artists/" +:+ spotify_artist_id in
  let! headers := _auth_headers in
  let! resp := requests_get url headers in
  if status_code resp =? 404
  then ret (VDict [])
  else
    let! _ := lift (raise_for_status resp) in
    let! data := lift (resp_json resp) in
    lift (artist_record data).

(** The guarded assignment inside the [try] (lines 119-123 and 139-143):
    [info and info.get("id") and info.get("name")], then
    [valid[key] = {"id": info["id"], "name": info["name"]}]. *)
Definition keep_if_named (key : string) (info : value) (valid : gmap string value)
  : outcome (gmap string value) :=
  if truthy info then
    and_then (py_get info "id" VNone) (fun id =>
    if truthy id then
      and_then (py_get info "name" VNone) (fun name =>
      if truthy name then
        and_then (py_getitem info "id") (fun id' =>
        and_then (py_getitem info "name") (fun name' =>
        Ok (<[key := VDict [("id", id'); ("name", name')]]> valid)))
      else Ok valid)
    else Ok valid)
  else Ok valid.

(** One turn of the loop of [validate_tracks_batch]. *)
Definition validate_tracks_step (track_id : string) (valid_tracks : gmap string value)
  : M Env (gmap string value) :=
  try_except
    (let! track_info := get_track_info track_id in
     lift (keep_if_named track_id track_info valid_tracks))
    (fun _ => ret valid_tracks).

Fixpoint validate_tracks_loop (track_ids : list string) (valid_tracks : gmap string value)
  : M Env (gmap string value) :=
  match track_ids with
  | [] => ret valid_tracks
  | track_id :: rest =>
      let! valid_tracks' := validate_tracks_step track_id valid_tracks in
      validate_tracks_loop rest valid_tracks'
  end.

Definition validate_tracks_batch (track_ids : list string) : M Env (gmap string value) :=
  validate_tracks_loop track_ids ∅.

(** One turn of the loop of [validate_artists_batch]. *)
Definition validate_artists_step (artist_id : string) (valid_artists : gmap string value)
  : M Env (gmap string value) :=
  try_except
    (let! artist_info := get_artist_info artist_id in
     lift (keep_if_named artist_id artist_info valid_artists))
    (fun _ => ret valid_artists).

Fixpoint validate_artists_loop (artist_ids : list string) (valid_artists : gmap string value)
  : M Env (gmap string value) :=
  match artist_ids with
  | [] => ret valid_artists
  | artist_id :: rest =>
      let! valid_artists' := validate_artists_step artist_id valid_artists in
      validate_artists_loop rest valid_artists'
  end.

Definition validate_artists_batch (artist_ids : list string) : M Env (gmap string value) :=
  validate_artists_loop artist_ids ∅.

(** ** Vocabulary of the properties *)

(** Both configuration strings are present and non-empty. *)
Definition configured : bool :=
  negb (env_missing (SPOTIFY_CLIENT_ID cfg) || env_missing (SPOTIFY_CLIENT_SECRET cfg)).

(** The request [get_access_token] posts (lines 42-48). *)
Definition token_request : Request :=
  mkRequest POST TOKEN_URL
    [("Authorization",
      "Basic " +:+ b64encode (env_str (SPOTIFY_CLIENT_ID cfg) +:+ ":"
                              +:+ env_str (SPOTIFY_CLIENT_SECRET cfg)));
     ("Content-Type", "application/x-www-form-urlencoded")]
    [("grant_type", "client_credentials")].

(** The requests of the two lookups, for a given bearer token. *)
Definition track_request (track_id : string) (token : value) : Request :=
  mkRequest GET (BASE_API_URL +:+ "/tracks/" +:+ track_id)
    [("Authorization", "Bearer " +:+ py_format token)] [].
Definition artist_request (artist_id : string) (token : value) : Request :=
  mkRequest GET (BASE_API_URL +:+ "/artists/" +:+ artist_id)
    [("Authorization", "Bearer " +:+ py_format token)] [].

(** The cache test of line 39 fails in [s]. *)
Definition cache_miss (s : State Env) : bool :=
  negb (truthy (_ACCESS_TOKEN s) && (clock (env s) <? _ACCESS_TOKEN_EXPIRES_AT s)).

(** The lifetime a token document declares: [expires_in], 3600 when the
    field is absent. *)
Definition declared_lifetime (fields : list (string * value)) : outcome Z :=
  py_number (default (VNum 3600) (assoc "expires_in" fields)).

(** Seconds of validity left at time [now] for a token acquired at
    [acquired] with lifetime [expires_in]. *)
Definition remaining_validity (acquired expires_in now : Z) : Z :=
  acquired + expires_in - now.

(** A field of a record, [None] when absent or when there is no record. *)
Definition field (k : string) (info : value) : value :=
  match info with
  | VDict fields => default VNone (assoc k fields)
  | _ => VNone
  end.

(** A record carrying a truthy id and a truthy name. *)
Definition named (info : value) : bool :=
  match info with
  | VDict _ => truthy (field "id" info) && truthy (field "name" info)
  | _ => false
  end.

(** The [{id, name}] entry a batch stores for a fetched record. *)
Definition entry_of (info : value) : value :=
  VDict [("id", field "id" info); ("name", field "name" info)].

(** A per-identifier fetch that yields no entry: it raised, or returned
    an empty record or one without id or name. *)
Definition fetch_failed (o : outcome value) : bool :=
  match o with
  | Raised _ => true
  | Ok info => negb (named info)
  end.

(** The state once request [r] has been handed to the transport and the
    world has become [e']. *)
Definition after_request (r : Request) (e' : Env) (s : State Env) : State Env :=
  {| env := e'; sent := sent s ++ [r]; _ACCESS_TOKEN := _ACCESS_TOKEN s;
     _ACCESS_TOKEN_EXPIRES_AT := _ACCESS_TOKEN_EXPIRES_AT s |}.

(** What a lookup makes of a delivered response (lines 70-91, 97-107):
    404 is the empty record, 4xx and 5xx raise, the rest is projected. *)
Definition lookup_result (project : value → outcome value) (resp : Response)
  : outcome value :=
  if status_code resp =? 404 then Ok (VDict [])
  else and_then (raise_for_status resp) (fun _ =>
       and_then (resp_json resp) project).

(** The shape both lookups share: acquire a token, send the request built
    from it, read the response. *)
Definition lookup (request_for : value → Request) (project : value → outcome value)
  : M Env value :=
  let! token := get_access_token in
  let! resp := send (request_for token) in
  lift (lookup_result project resp).

(** What one turn of a batch loop does to the mapping, given the outcome
    of the turn's fetch. *)
Definition absorb (key : string) (o : outcome value) (valid : gmap string value)
  : gmap string value :=
  match o with
  | Ok info => if named info then <[key := entry_of info]> valid else valid
  | Raised _ => valid
  end.

(** The shape both batch loops share, over the lookup they call. *)
Section Batch.

Variable fetch : string → M Env value.

Definition validate_step (key : string) (valid : gmap string value)
  : M Env (gmap string value) :=
  try_except
    (let! info := fetch key in
     lift (keep_if_named key info valid))
    (fun _ => ret valid).

Fixpoint validate_loop (keys : list string) (valid : gmap string value)
  : M Env (gmap string value) :=
  match keys with
  | [] => ret valid
  | key :: rest =>
      let! valid' := validate_step key valid in
      validate_loop rest valid'
  end.

(** [fetched_at keys s k s0]: a batch over [keys] started in [s] calls the
    lookup on [k] in state [s0]. *)
Inductive fetched_at : list string → State Env → string → State Env → Prop :=
  | fetched_here k rest s : fetched_at (k :: rest) s k s
  | fetched_later k0 rest s k s0 :
      fetched_at rest (snd (fetch k0 s)) k s0 →
      fetched_at (k0 :: rest) s k s0.

End Batch.

(** What "the service answers the lookup of [k] made in [s0] with an
    error status other than 404" means for a lookup. *)
Definition answered_with_error (request_for : string → value → Request)
    (k : string) (s0 : State Env) : Prop :=
  ∃ tok s1 resp e2,
    get_access_token s0 = (Ok tok, s1) ∧
    transport (request_for k tok) (env s1) = (Ok resp, e2) ∧
    400 <= status_code resp < 600 ∧ status_code resp ≠ 404.

(** ** States the module can be in *)

Inductive call : Type :=
  | CallToken
  | CallTrack (track_id : string)
  | CallArtist (artist_id : string)
  | CallValidateTracks (track_ids : list string)
  | CallValidateArtists (artist_ids : list string).

Definition run_call (c : call) (s : State Env) : State Env :=
  match c with
  | CallToken => snd (get_access_token s)
  | CallTrack track_id => snd (get_track_info track_id s)
  | CallArtist artist_id => snd (get_artist_info artist_id s)
  | CallValidateTracks track_ids => snd (validate_tracks_batch track_ids s)
  | CallValidateArtists artist_ids => snd (validate_artists_batch artist_ids s)
  end.

(** From the freshly imported module, any sequence of calls, the world
    changing freely in between. *)
Inductive reachable : State Env → Prop :=
  | reach_init e : reachable (initial_state e)
  | reach_call c s : reachable s → reachable (run_call c s)
  | reach_world e s : reachable s → reachable (with_env e s).

(** ** Further vocabulary *)

(** The keys of a record, in order; [None] for a value that is not one. *)
Definition record_keys (v : value) : option (list string) :=
  match v with
  | VDict fields => Some (map fst fields)
  | _ => None
  end.

(** A request of one of the three shapes the module builds: the token
    request, or the lookup of a track or an artist with some bearer token. *)
Definition module_request (r : Request) : Prop :=
  r = token_request ∨
  ∃ k tok, r = track_request k tok ∨ r = artist_request k tok.

(** The two globals agree in [s] and [s']. *)
Definition same_slot (s s' : State Env) : Prop :=
  _ACCESS_TOKEN s' = _ACCESS_TOKEN s ∧
  _ACCESS_TOKEN_EXPIRES_AT s' = _ACCESS_TOKEN_EXPIRES_AT s.

End Client.

(** ** A scripted world

    A fixed clock, one scripted answer of the token endpoint and one per
    catalogue URL.  The base64 encoder and [str()] are stand-ins: nothing
    below depends on what they return. *)

Record Script := mkScript {
  now : Z;
  token_endpoint : outcome Response;
  catalogue : string → outcome Response
}.

#[export] Instance scripted : Runtime Script := {|
  clock := now;
  transport := fun r w =>
    (match req_method r with
     | POST => token_endpoint w
     | GET => catalogue w (req_url r)
     end, w);
  b64encode := fun s => s;
  str_other := fun _ => ""
|}.

Definition no_config : Config :=
  {| SPOTIFY_CLIENT_ID := None; SPOTIFY_CLIENT_SECRET := None |}.
Definition app_config : Config :=
  {| SPOTIFY_CLIENT_ID := Some "app"; SPOTIFY_CLIENT_SECRET := Some "secret" |}.

Definition token_document (expires_in : Z) : Response :=
  {| status_code := 200; text := "";
     json_body := Some (VDict [("access_token", VStr "BQD-token");
                               ("expires_in", VNum expires_in)]) |}.

Definition not_found : Response :=
  {| status_code := 404; text := ""; json_body := None |}.

Definition rick_id : string := "4uLU6hMCjMI75M1A2tKUQC".

Definition rick_document : value :=
  VDict [("id", VStr rick_id); ("name", VStr "Never Gonna Give You Up")].

(** The catalogue of the spec's scenario: one known track, 404 for the
    rest. *)
Definition one_track (status : Z) (url : string) : outcome Response :=
  if String.eqb url (BASE_API_URL +:+ "/tracks/" +:+ rick_id)
  then Ok {| status_code := status; text := ""; json_body := Some rick_document |}
  else Ok not_found.

(** A healthy service, seen at time [t]: hour-long tokens. *)
Definition healthy_at (t : Z) : Script :=
  {| now := t; token_endpoint := Ok (token_document 3600); catalogue := one_track 200 |}.
Definition healthy : Script := healthy_at 1000.

(** The module after one successful [get_access_token] at time 1000. *)
Definition warmed_up : State Script :=
  run_call app_config CallToken (initial_state healthy).

(** A service that hands out ten-second tokens. *)
Definition short_lived : Script :=
  {| now := 1000; token_endpoint := Ok (token_document 10); catalogue := one_track 200 |}.

(** A service answering the known track with 300 and a document. *)
Definition multiple_choices : Script :=
  {| now := 1000; token_endpoint := Ok (token_document 3600); catalogue := one_track 300 |}.

(** A service that rate-limits every lookup. *)
Definition rate_limited : Script :=
  {| now := 1000; token_endpoint := Ok (token_document 3600);
     catalogue := fun _ => Ok {| status_code := 429; text := ""; json_body := None |} |}.

(** A token endpoint whose 200 answer carries no token. *)
Definition tokenless : Script :=
  {| now := 1000;
     token_endpoint := Ok {| status_code := 200; text := ""; json_body := Some (VDict []) |};
     catalogue := one_track 200 |}.

(** A catalogue that knows one artist. *)
Definition rick_artist_id : string := "0gxyHStUsqpMadRV0Di1Qt".

Definition one_artist (url : string) : outcome Response :=
  if String.eqb url (BASE_API_URL +:+ "/artists/" +:+ rick_artist_id)
  then Ok {| status_code := 200; text := "";
             json_body := Some (VDict [("id", VStr rick_artist_id);
                                       ("name", VStr "Rick Astley")]) |}
  else Ok not_found.

Definition artists_only : Script :=
  {| now := 1000; token_endpoint := Ok (token_document 3600); catalogue := one_artist |}.

(** A token endpoint that refuses the application. *)
Definition refusing : Script :=
  {| now := 1000;
     token_endpoint := Ok {| status_code := 401; text := "invalid_client";
                             json_body := None |};
     catalogue := one_track 200 |}.

(** A token endpoint whose lifetime is a string. *)
Definition bad_lifetime : Script :=
  {| now := 1000;
     token_endpoint :=
       Ok {| status_code := 200; text := "";
             json_body := Some (VDict [("access_token", VStr "BQD-token");
                                       ("expires_in", VStr "soon")]) |};
     catalogue := one_track 200 |}.

(** A token endpoint that declares no lifetime. *)
Definition no_lifetime : Script :=
  {| now := 1000;
     token_endpoint :=
       Ok {| status_code := 200; text := "";
             json_body := Some (VDict [("access_token", VStr "BQD-token")]) |};
     catalogue := one_track 200 |}.


(** A token endpoint whose 200 answer has neither a token nor a usable
    lifetime. *)
Definition tokenless_bad_lifetime : Script :=
  {| now := 1000;
     token_endpoint :=
       Ok {| status_code := 200; text := "";
             json_body := Some (VDict [("expires_in", VStr "soon")]) |};
     catalogue := one_track 200 |}.

(** A token endpoint whose lifetime does not fit a float. *)
Definition huge_lifetime : Script :=
  {| now := 1000; token_endpoint := Ok (token_document (10 ^ 400));
     catalogue := one_track 200 |}.

(** ** A world in which requests take time

    Every request moves the clock on by [tick_cost]; the token endpoint
    grants tokens that live [tick_lifetime]; the catalogue is empty. *)

Record Ticking := mkTicking {
  tick_now : Z;
  tick_cost : Z;
  tick_lifetime : Z
}.

Definition ticking : Runtime Ticking := {|
  clock := tick_now;
  transport := fun r w =>
    (match req_method r with
     | POST => Ok (token_document (tick_lifetime w))
     | GET => Ok not_found
     end,
     {| tick_now := tick_now w + tick_cost w; tick_cost := tick_cost w;
        tick_lifetime := tick_lifetime w |});
  b64encode := fun s => s;
  str_other := fun _ => ""
|}.

(** Enumerates the fetches a batch over a literal list makes. *)
Ltac each_fetch :=
  repeat match goal with
         | H : fetched_at _ _ _ _ _ |- _ => inversion H; clear H; subst
         end.

(** * Facts *)

Section Facts.

Context {Env : Type} `{RT : Runtime Env}.
Variable cfg : Config.

Implicit Types (s : State Env) (valid : gmap string value) (k : string).

(** ** The monad *)

Lemma bind_ok {A B} (m : M Env A) (f : A → M Env B) s a s' :
  m s = (Ok a, s') → bind m f s = f a s'.
Proof. unfold bind. intros ->. reflexivity. Qed.

Lemma bind_raised {A B} (m : M Env A) (f : A → M Env B) s e s' :
  m s = (Raised e, s') → bind m f s = (Raised e, s').
Proof. unfold bind. intros ->. reflexivity. Qed.

(** ** The credential cache *)

Lemma get_access_token_hit s :
  cache_miss s = false →
  get_access_token cfg s = (Ok (_ACCESS_TOKEN s), s).
Proof.
  unfold cache_miss. intros H. apply negb_false_iff in H.
  unfold get_access_token, bind, time_time, read_ACCESS_TOKEN,
    read_ACCESS_TOKEN_EXPIRES_AT, ret.
  rewrite H. reflexivity.
Qed.

Lemma get_access_token_miss s :
  cache_miss s = true →
  get_access_token cfg s = exchange_token cfg (clock (env s)) s.
Proof.
  unfold cache_miss. intros H. apply negb_true_iff in H.
  unfold get_access_token, bind, time_time, read_ACCESS_TOKEN,
    read_ACCESS_TOKEN_EXPIRES_AT, ret.
  rewrite H. reflexivity.
Qed.

Lemma exchange_unconfigured t s :
  configured cfg = false →
  exchange_token cfg t s = (Raised ConfigurationError, s).
Proof.
  unfold configured. intros H. apply negb_false_iff in H.
  unfold exchange_token, bind, _get_basic_auth_header.
  rewrite H. reflexivity.
Qed.

(** With the configuration present the exchange starts by posting
    [token_request]; what follows depends on the answer. *)
Lemma exchange_configured t s :
  configured cfg = true →
  exchange_token cfg t s =
    (let! resp := send (token_request cfg) in
     if negb (status_code resp =? 200)
     then raise (SpotifyAuthError
                   ("Error obteniendo token de Spotify: "
                    +:+ pretty (status_code resp) +:+ " " +:+ text resp))
     else
       let! payload := lift (resp_json resp) in
       let! token := lift (py_get payload "access_token" VNone) in
       let! _ := set_ACCESS_TOKEN token in
       let! expires_in := lift (py_get payload "expires_in" (VNum 3600)) in
       let! lifetime := lift (py_number expires_in) in
       let! _ := set_ACCESS_TOKEN_EXPIRES_AT (t + lifetime - 30) in
       let! cached := read_ACCESS_TOKEN in
       ret (py_or cached (VStr ""))) s.
Proof.
  unfold configured. intros H. apply negb_true_iff in H.
  unfold exchange_token, _get_basic_auth_header.
  rewrite H. reflexivity.
Qed.

Lemma exchange_sends t s :
  configured cfg = true →
  sent (snd (exchange_token cfg t s)) = sent s ++ [token_request cfg].
Proof.
  intros Hc. rewrite (exchange_configured _ _ Hc).
  unfold bind, send, raise, lift, resp_json, set_ACCESS_TOKEN,
    set_ACCESS_TOKEN_EXPIRES_AT, read_ACCESS_TOKEN, ret.
  destruct (transport (token_request cfg) (env s)) as [[resp|e] e']; [|reflexivity].
  destruct (negb (status_code resp =? 200)); [reflexivity|].
  destruct (json_body resp) as [payload|]; [|reflexivity].
  destruct (py_get payload "access_token" VNone) as [tok|]; [|reflexivity].
  destruct (py_get payload "expires_in" (VNum 3600)) as [ei|]; [|reflexivity].
  destruct (py_number ei); reflexivity.
Qed.

(** A 200 answer carrying a JSON object with a usable lifetime: the slot
    is overwritten with the document's token and [t + lifetime - 30]. *)
Lemma exchange_granted t s resp e' fields lifetime :
  configured cfg = true →
  transport (token_request cfg) (env s) = (Ok resp, e') →
  status_code resp = 200 →
  json_body resp = Some (VDict fields) →
  declared_lifetime fields = Ok lifetime →
  exchange_token cfg t s =
    (Ok (py_or (field "access_token" (VDict fields)) (VStr "")),
     {| env := e'; sent := sent s ++ [token_request cfg];
        _ACCESS_TOKEN := field "access_token" (VDict fields);
        _ACCESS_TOKEN_EXPIRES_AT := t + lifetime - 30 |}).
Proof.
  intros Hc Hr H200 Hj Hl. rewrite (exchange_configured _ _ Hc).
  unfold declared_lifetime in Hl.
  unfold bind, send, raise, lift, resp_json, set_ACCESS_TOKEN,
    set_ACCESS_TOKEN_EXPIRES_AT, read_ACCESS_TOKEN, ret.
  rewrite Hr, H200, Hj. cbn [Z.eqb negb Pos.eqb py_get].
  rewrite Hl. reflexivity.
Qed.

(** The exchange, case by case. *)
Lemma exchange_outcome t s :
  configured cfg = true →
  exchange_token cfg t s =
  match transport (token_request cfg) (env s) with
  | (Raised e, e') => (Raised e, after_request (token_request cfg) e' s)
  | (Ok resp, e') =>
      if status_code resp =? 200 then
        match json_body resp with
        | None => (Raised JSONDecodeError, after_request (token_request cfg) e' s)
        | Some (VDict fields) =>
            match declared_lifetime fields with
            | Ok lifetime =>
                (Ok (py_or (field "access_token" (VDict fields)) (VStr "")),
                 {| env := e'; sent := sent s ++ [token_request cfg];
                    _ACCESS_TOKEN := field "access_token" (VDict fields);
                    _ACCESS_TOKEN_EXPIRES_AT := t + lifetime - 30 |})
            | Raised e =>
                (Raised e,
                 {| env := e'; sent := sent s ++ [token_request cfg];
                    _ACCESS_TOKEN := field "access_token" (VDict fields);
                    _ACCESS_TOKEN_EXPIRES_AT := _ACCESS_TOKEN_EXPIRES_AT s |})
            end
        | Some _ => (Raised AttributeError, after_request (token_request cfg) e' s)
        end
      else
        (Raised (SpotifyAuthError
                   ("Error obteniendo token de Spotify: "
                    +:+ pretty (status_code resp) +:+ " " +:+ text resp)),
         after_request (token_request cfg) e' s)
  end.
Proof.
  intros Hc. rewrite (exchange_configured _ _ Hc).
  unfold bind, send, raise, lift, resp_json, set_ACCESS_TOKEN,
    set_ACCESS_TOKEN_EXPIRES_AT, read_ACCESS_TOKEN, ret, after_request,
    declared_lifetime.
  destruct (transport (token_request cfg) (env s)) as [[resp|e] e']; [|reflexivity].
  destruct (status_code resp =? 200); [|reflexivity]. cbn [negb].
  destruct (json_body resp) as [payload|]; [|reflexivity].
  destruct payload as [| | | | |fields]; try reflexivity.
Qed.

(** A lifetime the arithmetic accepts fits a float. *)
Lemma declared_lifetime_fits fields lifetime :
  declared_lifetime fields = Ok lifetime → Z.abs lifetime < float_limit.
Proof.
  unfold declared_lifetime, py_number, float_overflows.
  destruct (default (VNum 3600) (assoc "expires_in" fields)) as [|[]|n| | |];
    try discriminate.
  - intros [= <-]. reflexivity.
  - intros [= <-]. reflexivity.
  - destruct (Z.leb_spec float_limit (Z.abs n)); [discriminate|]. by intros [= <-].
Qed.

(** ** The lookups *)

Lemma get_track_info_lookup track_id s :
  get_track_info cfg track_id s =
  lookup cfg (track_request track_id) track_record s.
Proof.
  unfold get_track_info, lookup, _auth_headers, requests_get, track_request, bind, ret.
  destruct (get_access_token cfg s) as [[tok|e] s1]; [|reflexivity].
  destruct (send _ s1) as [[resp|e] s2]; [|reflexivity].
  unfold lookup_result, lift, and_then.
  destruct (status_code resp =? 404); [reflexivity|].
  destruct (raise_for_status resp); [|reflexivity].
  destruct (resp_json resp); reflexivity.
Qed.

Lemma get_artist_info_lookup artist_id s :
  get_artist_info cfg artist_id s =
  lookup cfg (artist_request artist_id) artist_record s.
Proof.
  unfold get_artist_info, lookup, _auth_headers, requests_get, artist_request, bind, ret.
  destruct (get_access_token cfg s) as [[tok|e] s1]; [|reflexivity].
  destruct (send _ s1) as [[resp|e] s2]; [|reflexivity].
  unfold lookup_result, lift, and_then.
  destruct (status_code resp =? 404); [reflexivity|].
  destruct (raise_for_status resp); [|reflexivity].
  destruct (resp_json resp); reflexivity.
Qed.

(** A failed credential acquisition is the lookup's failure, and nothing
    is requested from the catalogue. *)
Lemma lookup_no_token request_for project s e s1 :
  get_access_token cfg s = (Raised e, s1) →
  lookup cfg request_for project s = (Raised e, s1).
Proof. intros H. unfold lookup. apply bind_raised, H. Qed.

(** With a token in hand and a response delivered, the lookup is
    [lookup_result] of that response. *)
Lemma lookup_delivered request_for project s tok s1 resp e2 :
  get_access_token cfg s = (Ok tok, s1) →
  transport (request_for tok) (env s1) = (Ok resp, e2) →
  lookup cfg request_for project s =
    (lookup_result project resp, after_request (request_for tok) e2 s1).
Proof.
  intros Ht Hr. unfold lookup. rewrite (bind_ok _ _ _ _ _ Ht).
  unfold bind, send, lift. rewrite Hr. unfold after_request.
  destruct (lookup_result project resp); reflexivity.
Qed.

Lemma lookup_result_404 project resp :
  status_code resp = 404 → lookup_result project resp = Ok (VDict []).
Proof. unfold lookup_result. intros ->. reflexivity. Qed.

Lemma lookup_result_error project resp :
  400 <= status_code resp < 600 → status_code resp ≠ 404 →
  lookup_result project resp = Raised (HTTPError (status_code resp)).
Proof.
  intros Hr Hn. unfold lookup_result, raise_for_status.
  destruct (Z.eqb_spec (status_code resp) 404) as [|_]; [contradiction|].
  destruct (Z.leb_spec 400 (status_code resp)); [|lia].
  destruct (Z.ltb_spec (status_code resp) 600); [|lia].
  reflexivity.
Qed.

(** ** The batch loops *)

Lemma keep_if_named_named k info valid :
  named info = true →
  keep_if_named k info valid = Ok (<[k := entry_of info]> valid).
Proof.
  destruct info as [| | | | |fields]; try discriminate.
  unfold named, entry_of, field, keep_if_named, py_get, py_getitem, and_then.
  intros H. apply andb_true_iff in H as [Hid Hname].
  rewrite Hid, Hname.
  destruct (assoc "id" fields) as [id|] eqn:Eid; [|discriminate].
  destruct (assoc "name" fields) as [name|] eqn:Ename; [|discriminate].
  destruct fields; [discriminate|]. reflexivity.
Qed.

Lemma keep_if_named_unnamed k info valid :
  named info = false →
  keep_if_named k info valid = Ok valid ∨ ∃ e, keep_if_named k info valid = Raised e.
Proof.
  intros H. unfold keep_if_named.
  destruct (truthy info) eqn:Ht; [|by left].
  destruct info as [| | | | |fields]; try (right; eexists; reflexivity).
  unfold named, field in H. unfold py_get, and_then.
  destruct (truthy (default VNone (assoc "id" fields))); [|by left].
  simpl in H. rewrite H. by left.
Qed.

Section BatchFacts.

Variable fetch : string → M Env value.

Lemma validate_step_spec k valid s :
  validate_step fetch k valid s =
    (Ok (absorb k (fst (fetch k s)) valid), snd (fetch k s)).
Proof.
  unfold validate_step, try_except, bind, lift, ret, absorb.
  destruct (fetch k s) as [[info|e] s1]; [|reflexivity]. cbn [fst snd].
  destruct (named info) eqn:Hn.
  - rewrite (keep_if_named_named _ _ _ Hn). reflexivity.
  - destruct (keep_if_named_unnamed k info valid Hn) as [->|[e ->]]; reflexivity.
Qed.

Lemma validate_loop_cons k rest valid s :
  validate_loop fetch (k :: rest) valid s =
  validate_loop fetch rest (absorb k (fst (fetch k s)) valid) (snd (fetch k s)).
Proof.
  cbn [validate_loop]. unfold bind at 1. rewrite validate_step_spec. reflexivity.
Qed.

(** The loop always ends with a mapping. *)
Lemma validate_loop_ok keys : ∀ valid s,
  ∃ m, fst (validate_loop fetch keys valid s) = Ok m.
Proof.
  induction keys as [|k rest IH]; intros valid s.
  - exists valid. reflexivity.
  - rewrite validate_loop_cons. apply IH.
Qed.

Lemma fetched_at_elem keys : ∀ s k s0,
  fetched_at fetch keys s k s0 → k ∈ keys.
Proof.
  intros s k s0 H. induction H.
  - apply list_elem_of_here.
  - by apply list_elem_of_further.
Qed.

Lemma absorb_lookup_ne k k' o valid :
  k ≠ k' → absorb k o valid !! k' = valid !! k'.
Proof.
  intros Hne. unfold absorb. destruct o as [info|]; [|reflexivity].
  destruct (named info); [|reflexivity]. by rewrite lookup_insert_ne.
Qed.

(** Where an entry of the final mapping comes from. *)
Lemma validate_loop_lookup keys : ∀ valid s m k v,
  fst (validate_loop fetch keys valid s) = Ok m →
  m !! k = Some v →
  valid !! k = Some v ∨
  ∃ s0 info, fetched_at fetch keys s k s0 ∧ fst (fetch k s0) = Ok info ∧
             named info = true ∧ v = entry_of info.
Proof.
  induction keys as [|k0 rest IH]; intros valid s m k v Hrun Hm.
  - cbn in Hrun. injection Hrun as <-. by left.
  - rewrite validate_loop_cons in Hrun.
    destruct (IH _ _ _ _ _ Hrun Hm) as [Hv|(s0 & info & Hf & Ho & Hn & Hv)].
    + destruct (decide (k0 = k)) as [->|Hne].
      * unfold absorb in Hv. destruct (fst (fetch k s)) as [info|] eqn:Ho; [|by left].
        destruct (named info) eqn:Hn; [|by left].
        rewrite lookup_insert_eq in Hv. injection Hv as <-.
        right. exists s, info. split; [constructor|]. by repeat split.
      * rewrite absorb_lookup_ne in Hv by done. by left.
    + right. exists s0, info. split; [by constructor|]. by repeat split.
Qed.

(** An identifier has no entry exactly when it had none to begin with and
    every fetch the loop made for it failed. *)
Lemma validate_loop_absent keys : ∀ valid s m k,
  fst (validate_loop fetch keys valid s) = Ok m →
  m !! k = None ↔
  valid !! k = None ∧
  ∀ s0, fetched_at fetch keys s k s0 → fetch_failed (fst (fetch k s0)) = true.
Proof.
  induction keys as [|k0 rest IH]; intros valid s m k Hrun.
  - cbn in Hrun. injection Hrun as <-. split.
    + intros H. split; [done|]. intros s0 Hf. inversion Hf.
    + by intros [H _].
  - rewrite validate_loop_cons in Hrun. rewrite (IH _ _ _ k Hrun). clear IH Hrun.
    split.
    + intros [Ha Hrest]. destruct (decide (k0 = k)) as [->|Hne].
      * unfold absorb in Ha. destruct (fst (fetch k s)) as [info|] eqn:Ho.
        -- destruct (named info) eqn:Hn; [by rewrite lookup_insert_eq in Ha|].
           split; [done|]. intros s0 Hf. inversion Hf; subst; [|by apply Hrest].
           rewrite Ho. cbn. by rewrite Hn.
        -- split; [done|]. intros s0 Hf. inversion Hf; subst; [|by apply Hrest].
           by rewrite Ho.
      * rewrite absorb_lookup_ne in Ha by done. split; [done|].
        intros s0 Hf. inversion Hf; subst; [done|by apply Hrest].
    + intros [Hv Hall]. split.
      * destruct (decide (k0 = k)) as [->|Hne].
        -- specialize (Hall s (fetched_here _ _ _ _)).
           unfold absorb. destruct (fst (fetch k s)) as [info|]; [|done].
           cbn in Hall. apply negb_true_iff in Hall. by rewrite Hall.
        -- by rewrite absorb_lookup_ne.
      * intros s0 Hf. apply Hall. by constructor.
Qed.

End BatchFacts.

Lemma validate_tracks_loop_shape track_ids : ∀ valid s,
  validate_tracks_loop cfg track_ids valid s =
  validate_loop (get_track_info cfg) track_ids valid s.
Proof.
  induction track_ids as [|k rest IH]; intros valid s; [reflexivity|].
  cbn [validate_tracks_loop validate_loop]. unfold bind.
  change (validate_tracks_step cfg k valid s)
    with (validate_step (get_track_info cfg) k valid s).
  destruct (validate_step (get_track_info cfg) k valid s) as [[v|e] s1];
    [apply IH|reflexivity].
Qed.

Lemma validate_artists_loop_shape artist_ids : ∀ valid s,
  validate_artists_loop cfg artist_ids valid s =
  validate_loop (get_artist_info cfg) artist_ids valid s.
Proof.
  induction artist_ids as [|k rest IH]; intros valid s; [reflexivity|].
  cbn [validate_artists_loop validate_loop]. unfold bind.
  change (validate_artists_step cfg k valid s)
    with (validate_step (get_artist_info cfg) k valid s).
  destruct (validate_step (get_artist_info cfg) k valid s) as [[v|e] s1];
    [apply IH|reflexivity].
Qed.

(** ** Without configuration nothing ever happens *)

Lemma cache_miss_no_token s : truthy (_ACCESS_TOKEN s) = false → cache_miss s = true.
Proof. unfold cache_miss. intros ->. reflexivity. Qed.

Lemma unconfigured_token s :
  configured cfg = false → cache_miss s = true →
  get_access_token cfg s = (Raised ConfigurationError, s).
Proof.
  intros Hc Hm. rewrite get_access_token_miss by done. by apply exchange_unconfigured.
Qed.

Lemma unconfigured_loop (fetch : string → M Env value) s keys : ∀ valid,
  (∀ k, fetch k s = (Raised ConfigurationError, s)) →
  validate_loop fetch keys valid s = (Ok valid, s).
Proof.
  induction keys as [|k rest IH]; intros valid Hf; [reflexivity|].
  rewrite validate_loop_cons, Hf. cbn [fst snd absorb]. by apply IH.
Qed.

Lemma unconfigured_call c s :
  configured cfg = false → cache_miss s = true → run_call cfg c s = s.
Proof.
  intros Hc Hm.
  assert (Ht : get_access_token cfg s = (Raised ConfigurationError, s))
    by by apply unconfigured_token.
  destruct c as [|k|k|ids|ids]; cbn [run_call].
  - by rewrite Ht.
  - by rewrite get_track_info_lookup, (lookup_no_token _ _ _ _ _ Ht).
  - by rewrite get_artist_info_lookup, (lookup_no_token _ _ _ _ _ Ht).
  - unfold validate_tracks_batch.
    rewrite validate_tracks_loop_shape, unconfigured_loop; [done|].
    intros k. by rewrite get_track_info_lookup, (lookup_no_token _ _ _ _ _ Ht).
  - unfold validate_artists_batch.
    rewrite validate_artists_loop_shape, unconfigured_loop; [done|].
    intros k. by rewrite get_artist_info_lookup, (lookup_no_token _ _ _ _ _ Ht).
Qed.

(** Without configuration the slot stays empty and no request is sent. *)
Lemma unconfigured_reachable s :
  configured cfg = false → reachable cfg s →
  _ACCESS_TOKEN s = VNone ∧ sent s = [].
Proof.
  intros Hc Hr. induction Hr as [e|c s Hr IH|e s Hr IH].
  - by split.
  - rewrite unconfigured_call; [done..|].
    apply cache_miss_no_token. by rewrite (proj1 IH).
  - exact IH.
Qed.


Lemma missing_not_configured :
  env_missing (SPOTIFY_CLIENT_ID cfg) = true ∨
  env_missing (SPOTIFY_CLIENT_SECRET cfg) = true →
  configured cfg = false.
Proof.
  unfold configured. intros [->| ->]; [reflexivity|].
  by rewrite orb_true_r.
Qed.

(** ** The batch operations, in the terms of their loops *)

Lemma validate_tracks_batch_total ids s :
  ∃ m, fst (validate_tracks_batch cfg ids s) = Ok m ∧
       ∀ k, (∀ s0, fetched_at (get_track_info cfg) ids s k s0 →
                   fetch_failed (fst (get_track_info cfg k s0)) = true) →
            m !! k = None.
Proof.
  unfold validate_tracks_batch. rewrite validate_tracks_loop_shape.
  destruct (validate_loop_ok (get_track_info cfg) ids ∅ s) as [m Hm].
  exists m. split; [done|]. intros k Hk.
  apply (validate_loop_absent _ _ _ _ _ k Hm). by split.
Qed.

Lemma validate_artists_batch_total ids s :
  ∃ m, fst (validate_artists_batch cfg ids s) = Ok m ∧
       ∀ k, (∀ s0, fetched_at (get_artist_info cfg) ids s k s0 →
                   fetch_failed (fst (get_artist_info cfg k s0)) = true) →
            m !! k = None.
Proof.
  unfold validate_artists_batch. rewrite validate_artists_loop_shape.
  destruct (validate_loop_ok (get_artist_info cfg) ids ∅ s) as [m Hm].
  exists m. split; [done|]. intros k Hk.
  apply (validate_loop_absent _ _ _ _ _ k Hm). by split.
Qed.

Lemma validate_tracks_loop_skip k ids valid s :
  fetch_failed (fst (get_track_info cfg k s)) = true →
  validate_tracks_loop cfg (k :: ids) valid s =
  validate_tracks_loop cfg ids valid (snd (get_track_info cfg k s)).
Proof.
  intros Hf. rewrite !validate_tracks_loop_shape, validate_loop_cons.
  unfold absorb. destruct (fst (get_track_info cfg k s)) as [info|]; [|done].
  cbn in Hf. apply negb_true_iff in Hf. by rewrite Hf.
Qed.

Lemma validate_artists_loop_skip k ids valid s :
  fetch_failed (fst (get_artist_info cfg k s)) = true →
  validate_artists_loop cfg (k :: ids) valid s =
  validate_artists_loop cfg ids valid (snd (get_artist_info cfg k s)).
Proof.
  intros Hf. rewrite !validate_artists_loop_shape, validate_loop_cons.
  unfold absorb. destruct (fst (get_artist_info cfg k s)) as [info|]; [|done].
  cbn in Hf. apply negb_true_iff in Hf. by rewrite Hf.
Qed.

(** ** The claims *)

(** C1. Whatever the identifiers and whatever each fetch does (raise,
    return the empty record, return a record without id or name), the two
    batch operations return a mapping and never raise; an identifier
    whose fetches all fail has no entry in it; and after a failing fetch
    the loop goes on with the next identifier, the mapping untouched. *)
Theorem batch_absorbs_fetch_failures (ids : list string) (s : State Env) :
  (∃ m, fst (validate_tracks_batch cfg ids s) = Ok m ∧
        ∀ k, (∀ s0, fetched_at (get_track_info cfg) ids s k s0 →
                    fetch_failed (fst (get_track_info cfg k s0)) = true) →
             m !! k = None) ∧
  (∃ m, fst (validate_artists_batch cfg ids s) = Ok m ∧
        ∀ k, (∀ s0, fetched_at (get_artist_info cfg) ids s k s0 →
                    fetch_failed (fst (get_artist_info cfg k s0)) = true) →
             m !! k = None) ∧
  (∀ k valid, fetch_failed (fst (get_track_info cfg k s)) = true →
     validate_tracks_loop cfg (k :: ids) valid s =
     validate_tracks_loop cfg ids valid (snd (get_track_info cfg k s))) ∧
  (∀ k valid, fetch_failed (fst (get_artist_info cfg k s)) = true →
     validate_artists_loop cfg (k :: ids) valid s =
     validate_artists_loop cfg ids valid (snd (get_artist_info cfg k s))).
Proof.
  split; [apply validate_tracks_batch_total|].
  split; [apply validate_artists_batch_total|].
  split; intros k valid Hf.
  - by apply validate_tracks_loop_skip.
  - by apply validate_artists_loop_skip.
Qed.

(** C2. Every key of the mapping returned by [validate_tracks_batch ids]
    is one of [ids], and its value is exactly [{id, name}], both truthy
    (non-empty) and equal to the id and name of the record that the
    [get_track_info] call made for that key returned. *)
Theorem validate_tracks_batch_entries (ids : list string) (s : State Env)
    (m : gmap string value) (k : string) (v : value) :
  fst (validate_tracks_batch cfg ids s) = Ok m →
  m !! k = Some v →
  k ∈ ids ∧
  ∃ s0 info,
    fetched_at (get_track_info cfg) ids s k s0 ∧
    fst (get_track_info cfg k s0) = Ok info ∧
    truthy (field "id" info) = true ∧
    truthy (field "name" info) = true ∧
    v = VDict [("id", field "id" info); ("name", field "name" info)].
Proof.
  unfold validate_tracks_batch. rewrite validate_tracks_loop_shape. intros Hrun Hm.
  destruct (validate_loop_lookup _ _ _ _ _ _ _ Hrun Hm)
    as [He|(s0 & info & Hf & Ho & Hn & Hv)].
  - by rewrite lookup_empty in He.
  - split; [by eapply fetched_at_elem|].
    exists s0, info. destruct info as [| | | | |fields]; try discriminate.
    unfold named in Hn. apply andb_true_iff in Hn as [Hid Hname].
    by repeat split.
Qed.

(** C3, as amended. A failure of credential acquisition is absorbed like
    any other failure of a fetch: the identifier is skipped and the loop
    goes on from the state the acquisition left; with the configuration
    missing both batch operations return the empty mapping, raise
    nothing and send nothing. *)
Theorem batch_absorbs_credential_failure (ids : list string) (s : State Env) :
  (∀ k valid e s1, get_access_token cfg s = (Raised e, s1) →
     validate_tracks_loop cfg (k :: ids) valid s = validate_tracks_loop cfg ids valid s1 ∧
     validate_artists_loop cfg (k :: ids) valid s = validate_artists_loop cfg ids valid s1) ∧
  (configured cfg = false → reachable cfg s →
     validate_tracks_batch cfg ids s = (Ok ∅, s) ∧
     validate_artists_batch cfg ids s = (Ok ∅, s)).
Proof.
  split.
  - intros k valid e s1 Ht. split.
    + rewrite !validate_tracks_loop_shape, validate_loop_cons.
      by rewrite get_track_info_lookup, (lookup_no_token _ _ _ _ _ Ht).
    + rewrite !validate_artists_loop_shape, validate_loop_cons.
      by rewrite get_artist_info_lookup, (lookup_no_token _ _ _ _ _ Ht).
  - intros Hc Hr.
    assert (Ht : get_access_token cfg s = (Raised ConfigurationError, s)).
    { apply unconfigured_token; [done|]. apply cache_miss_no_token.
      by rewrite (proj1 (unconfigured_reachable s Hc Hr)). }
    unfold validate_tracks_batch, validate_artists_batch.
    rewrite validate_tracks_loop_shape, validate_artists_loop_shape. split.
    + apply unconfigured_loop. intros k.
      by rewrite get_track_info_lookup, (lookup_no_token _ _ _ _ _ Ht).
    + apply unconfigured_loop. intros k.
      by rewrite get_artist_info_lookup, (lookup_no_token _ _ _ _ _ Ht).
Qed.

(** C9. When the application identifier or the application secret is
    missing, [get_access_token] raises the configuration error in every
    state the module can be in, and the state is left as it was: no
    request has been handed to the transport, by this call or before. *)
Theorem missing_configuration_raises_before_any_request (s : State Env) :
  env_missing (SPOTIFY_CLIENT_ID cfg) = true ∨
  env_missing (SPOTIFY_CLIENT_SECRET cfg) = true →
  reachable cfg s →
  get_access_token cfg s = (Raised ConfigurationError, s) ∧
  sent (snd (get_access_token cfg s)) = [].
Proof.
  intros Hmiss Hr. apply missing_not_configured in Hmiss.
  destruct (unconfigured_reachable s Hmiss Hr) as [Hn Hs].
  assert (Ht : get_access_token cfg s = (Raised ConfigurationError, s)).
  { apply unconfigured_token; [done|]. apply cache_miss_no_token. by rewrite Hn. }
  by rewrite Ht.
Qed.

(** C4. When the remote service answers a lookup with status 404,
    [get_track_info] and [get_artist_info] return the empty record and
    raise nothing; any other failure status (4xx, 5xx) makes them raise,
    so the caller can tell the two apart. *)
Theorem not_found_is_empty_record (k : string) (s s1 : State Env) (tok : value)
    (resp : Response) (e2 : Env) :
  get_access_token cfg s = (Ok tok, s1) →
  (transport (track_request k tok) (env s1) = (Ok resp, e2) →
     (status_code resp = 404 →
        get_track_info cfg k s =
          (Ok (VDict []), after_request (track_request k tok) e2 s1)) ∧
     (400 <= status_code resp < 600 → status_code resp ≠ 404 →
        get_track_info cfg k s =
          (Raised (HTTPError (status_code resp)),
           after_request (track_request k tok) e2 s1))) ∧
  (transport (artist_request k tok) (env s1) = (Ok resp, e2) →
     (status_code resp = 404 →
        get_artist_info cfg k s =
          (Ok (VDict []), after_request (artist_request k tok) e2 s1)) ∧
     (400 <= status_code resp < 600 → status_code resp ≠ 404 →
        get_artist_info cfg k s =
          (Raised (HTTPError (status_code resp)),
           after_request (artist_request k tok) e2 s1))).
Proof.
  intros Ht. split; intros Hr.
  - rewrite get_track_info_lookup, (lookup_delivered _ _ _ _ _ _ _ Ht Hr). split.
    + intros H. by rewrite lookup_result_404.
    + intros H Hn. by rewrite lookup_result_error.
  - rewrite get_artist_info_lookup, (lookup_delivered _ _ _ _ _ _ _ Ht Hr). split.
    + intros H. by rewrite lookup_result_404.
    + intros H Hn. by rewrite lookup_result_error.
Qed.

Lemma answered_with_error_track k s0 :
  answered_with_error cfg track_request k s0 →
  fetch_failed (fst (get_track_info cfg k s0)) = true.
Proof.
  intros (tok & s1 & resp & e2 & Ht & Hr & Hc & Hn).
  rewrite get_track_info_lookup, (lookup_delivered _ _ _ _ _ _ _ Ht Hr).
  by rewrite lookup_result_error.
Qed.

Lemma answered_with_error_artist k s0 :
  answered_with_error cfg artist_request k s0 →
  fetch_failed (fst (get_artist_info cfg k s0)) = true.
Proof.
  intros (tok & s1 & resp & e2 & Ht & Hr & Hc & Hn).
  rewrite get_artist_info_lookup, (lookup_delivered _ _ _ _ _ _ _ Ht Hr).
  by rewrite lookup_result_error.
Qed.

(** C5, as amended. When the remote service answers a lookup with a 4xx
    or 5xx status other than 404, [get_track_info] and [get_artist_info]
    raise [HTTPError]; the batch loops skip that identifier and go on; and
    a batch in which every lookup of an identifier is answered so returns
    a mapping without that identifier and raises nothing. *)
Theorem error_status_raises_and_is_omitted (ids : list string) (s : State Env) :
  (∀ k tok s1 resp e2,
     get_access_token cfg s = (Ok tok, s1) →
     400 <= status_code resp < 600 → status_code resp ≠ 404 →
     (transport (track_request k tok) (env s1) = (Ok resp, e2) →
        get_track_info cfg k s =
          (Raised (HTTPError (status_code resp)),
           after_request (track_request k tok) e2 s1) ∧
        ∀ valid, validate_tracks_loop cfg (k :: ids) valid s =
                 validate_tracks_loop cfg ids valid
                   (after_request (track_request k tok) e2 s1)) ∧
     (transport (artist_request k tok) (env s1) = (Ok resp, e2) →
        get_artist_info cfg k s =
          (Raised (HTTPError (status_code resp)),
           after_request (artist_request k tok) e2 s1) ∧
        ∀ valid, validate_artists_loop cfg (k :: ids) valid s =
                 validate_artists_loop cfg ids valid
                   (after_request (artist_request k tok) e2 s1))) ∧
  (∀ k, (∀ s0, fetched_at (get_track_info cfg) ids s k s0 →
               answered_with_error cfg track_request k s0) →
        ∃ m, fst (validate_tracks_batch cfg ids s) = Ok m ∧ m !! k = None) ∧
  (∀ k, (∀ s0, fetched_at (get_artist_info cfg) ids s k s0 →
               answered_with_error cfg artist_request k s0) →
        ∃ m, fst (validate_artists_batch cfg ids s) = Ok m ∧ m !! k = None).
Proof.
  split; [|split].
  - intros k tok s1 resp e2 Ht Hc Hn. split; intros Hr.
    + assert (Hg : get_track_info cfg k s =
                   (Raised (HTTPError (status_code resp)),
                    after_request (track_request k tok) e2 s1)).
      { rewrite get_track_info_lookup, (lookup_delivered _ _ _ _ _ _ _ Ht Hr).
        by rewrite lookup_result_error. }
      split; [done|]. intros valid.
      by rewrite !validate_tracks_loop_shape, validate_loop_cons, Hg.
    + assert (Hg : get_artist_info cfg k s =
                   (Raised (HTTPError (status_code resp)),
                    after_request (artist_request k tok) e2 s1)).
      { rewrite get_artist_info_lookup, (lookup_delivered _ _ _ _ _ _ _ Ht Hr).
        by rewrite lookup_result_error. }
      split; [done|]. intros valid.
      by rewrite !validate_artists_loop_shape, validate_loop_cons, Hg.
  - intros k Hall.
    destruct (validate_tracks_batch_total ids s) as (m & Hm & Habs).
    exists m. split; [done|]. apply Habs. intros s0 Hf.
    by apply answered_with_error_track, Hall.
  - intros k Hall.
    destruct (validate_artists_batch_total ids s) as (m & Hm & Habs).
    exists m. split; [done|]. apply Habs. intros s0 Hf.
    by apply answered_with_error_artist, Hall.
Qed.

(** C6, as amended. After a first exchange answered with a non-empty
    token whose declared lifetime is a number that fits a float and
    exceeds 30 seconds plus the time the exchange itself took, a second
    call made in the state the first one left, with no time elapsed in
    between, returns that same token and leaves the state as it is: the
    list of requests sent has not grown. *)
Theorem immediate_second_call_is_cached (s : State Env) (resp : Response) (e' : Env)
    (fields : list (string * value)) (lifetime : Z) :
  configured cfg = true →
  cache_miss s = true →
  transport (token_request cfg) (env s) = (Ok resp, e') →
  status_code resp = 200 →
  json_body resp = Some (VDict fields) →
  truthy (field "access_token" (VDict fields)) = true →
  declared_lifetime fields = Ok lifetime →
  30 + (clock e' - clock (env s)) < lifetime →
  ∃ s1, get_access_token cfg s = (Ok (field "access_token" (VDict fields)), s1) ∧
        env s1 = e' ∧
        get_access_token cfg s1 = (Ok (field "access_token" (VDict fields)), s1) ∧
        sent s1 = sent s ++ [token_request cfg].
Proof.
  intros Hc Hm Hr H200 Hj Htok Hl Hlong.
  rewrite (get_access_token_miss _ Hm).
  rewrite (exchange_granted _ _ _ _ _ _ Hc Hr H200 Hj Hl).
  unfold py_or. rewrite Htok.
  eexists. split; [reflexivity|]. split; [reflexivity|]. split; [|reflexivity].
  rewrite get_access_token_hit; [done|].
  unfold cache_miss. cbn [_ACCESS_TOKEN _ACCESS_TOKEN_EXPIRES_AT env].
  rewrite Htok. cbn [andb]. apply negb_false_iff, Z.ltb_lt. lia.
Qed.


(** C8, as amended. Take an exchange that completes: a 200 token
    document whose lifetime is absent or a number that fits a float, so
    that token and expiry are both stored.  On the fresh path its
    credential is returned whatever that lifetime: what is left at return
    is the lifetime less the time the exchange took, and the margin of 30
    seconds holds there exactly when that much is left.  On the cache-hit
    path, in every later state whose slot is still the one this exchange
    wrote, the credential returned is the document's token and it has
    more than 30 seconds left before its raw expiry (the clock reading
    at acquisition plus the declared lifetime). *)
Theorem returned_credential_margin (s0 : State Env) (resp : Response) (e' : Env)
    (fields : list (string * value)) (lifetime : Z) :
  configured cfg = true →
  cache_miss s0 = true →
  transport (token_request cfg) (env s0) = (Ok resp, e') →
  status_code resp = 200 →
  json_body resp = Some (VDict fields) →
  declared_lifetime fields = Ok lifetime →
  ∃ s1, get_access_token cfg s0 =
          (Ok (py_or (field "access_token" (VDict fields)) (VStr "")), s1) ∧
        env s1 = e' ∧
        remaining_validity (clock (env s0)) lifetime (clock (env s1))
        = lifetime - (clock (env s1) - clock (env s0)) ∧
        (30 <= remaining_validity (clock (env s0)) lifetime (clock (env s1)) ↔
         30 + (clock (env s1) - clock (env s0)) <= lifetime) ∧
        ∀ s, same_slot s1 s →
             cache_miss s = false →
             get_access_token cfg s = (Ok (field "access_token" (VDict fields)), s) ∧
             30 < remaining_validity (clock (env s0)) lifetime (clock (env s)).
Proof.
  intros Hc Hm Hr H200 Hj Hl.
  rewrite (get_access_token_miss _ Hm).
  rewrite (exchange_granted _ _ _ _ _ _ Hc Hr H200 Hj Hl).
  eexists. split; [reflexivity|]. cbn [env]. split; [reflexivity|].
  unfold remaining_validity. split; [lia|]. split; [lia|].
  intros s [Htok Hexp] Hhit. cbn [_ACCESS_TOKEN _ACCESS_TOKEN_EXPIRES_AT] in Htok, Hexp.
  rewrite (get_access_token_hit _ Hhit), Htok. split; [done|].
  unfold cache_miss in Hhit. apply negb_false_iff, andb_true_iff in Hhit as [_ Hlt].
  apply Z.ltb_lt in Hlt. lia.
Qed.

(** C10, as amended. When the exchange is answered with status 200 and a
    JSON object without [access_token], the slot afterwards holds [None],
    and in every later state whose slot holds [None] the call goes
    through the exchange again, posting a new token request, whatever
    the clock says; and when the object's [expires_in] is absent or a
    number that fits a float, [get_access_token] raises nothing and
    returns the empty string. *)
Theorem tokenless_answer_is_not_cached (s : State Env) (resp : Response) (e' : Env)
    (fields : list (string * value)) :
  configured cfg = true →
  cache_miss s = true →
  transport (token_request cfg) (env s) = (Ok resp, e') →
  status_code resp = 200 →
  json_body resp = Some (VDict fields) →
  assoc "access_token" fields = None →
  (∀ lifetime, declared_lifetime fields = Ok lifetime →
               fst (get_access_token cfg s) = Ok (VStr "")) ∧
  _ACCESS_TOKEN (snd (get_access_token cfg s)) = VNone ∧
  ∀ s2, _ACCESS_TOKEN s2 = VNone →
        get_access_token cfg s2 = exchange_token cfg (clock (env s2)) s2 ∧
        sent (snd (get_access_token cfg s2)) = sent s2 ++ [token_request cfg].
Proof.
  intros Hc Hm Hr H200 Hj Hnone.
  rewrite (get_access_token_miss _ Hm), (exchange_outcome _ _ Hc), Hr, H200, Hj.
  cbn [Z.eqb Pos.eqb]. unfold field. rewrite Hnone. cbn [default from_option].
  split; [|split].
  - intros lifetime ->. reflexivity.
  - by destruct (declared_lifetime fields).
  - intros s2 Hs2.
    assert (Hm2 : cache_miss s2 = true) by (apply cache_miss_no_token; by rewrite Hs2).
    rewrite (get_access_token_miss _ Hm2). split; [done|]. by apply exchange_sends.
Qed.

(** * Further properties of the module *)

(** ** The exchange, case by case *)

(** X1. Whatever [get_access_token] returns is the token now in the slot,
    or the empty string when the slot holds nothing usable: the result is
    never [None] and never any other falsy value. *)
Theorem returned_token_is_the_slot (s s1 : State Env) (tok : value) :
  get_access_token cfg s = (Ok tok, s1) →
  tok = py_or (_ACCESS_TOKEN s1) (VStr "") ∧
  (truthy tok = true ∨ tok = VStr "").
Proof.
  intros Hrun.
  assert (Hslot : tok = py_or (_ACCESS_TOKEN s1) (VStr "")).
  { destruct (cache_miss s) eqn:Hm.
    - rewrite (get_access_token_miss _ Hm) in Hrun.
      destruct (configured cfg) eqn:Hc;
        [|rewrite exchange_unconfigured in Hrun by done; discriminate].
      rewrite (exchange_outcome _ _ Hc) in Hrun.
      destruct (transport (token_request cfg) (env s)) as [[resp|e] e'];
        [|discriminate].
      destruct (status_code resp =? 200); [|discriminate].
      destruct (json_body resp) as [[| | | | |fields]|]; try discriminate.
      destruct (declared_lifetime fields); [|discriminate].
      by injection Hrun as <- <-.
    - rewrite (get_access_token_hit _ Hm) in Hrun. injection Hrun as <- <-.
      unfold cache_miss in Hm. apply negb_false_iff, andb_true_iff in Hm as [Ht _].
      unfold py_or. by rewrite Ht. }
  split; [done|]. rewrite Hslot. unfold py_or.
  destruct (truthy (_ACCESS_TOKEN s1)) eqn:Ht; [by left|by right].
Qed.

(** X2. A call that raises never moves the stored expiry.  It leaves the
    stored token alone as well, except in one case: a 200 answer whose
    document has an unusable [expires_in] (not a number, or an integer
    too large for a float), where the document's token has already been
    stored when the arithmetic fails. *)
Theorem failed_acquisition_keeps_expiry (s s1 : State Env) (e : exn) :
  get_access_token cfg s = (Raised e, s1) →
  _ACCESS_TOKEN_EXPIRES_AT s1 = _ACCESS_TOKEN_EXPIRES_AT s ∧
  (_ACCESS_TOKEN s1 = _ACCESS_TOKEN s ∨
   ∃ resp e' fields,
     transport (token_request cfg) (env s) = (Ok resp, e') ∧
     status_code resp = 200 ∧
     json_body resp = Some (VDict fields) ∧
     declared_lifetime fields = Raised e ∧
     _ACCESS_TOKEN s1 = field "access_token" (VDict fields)).
Proof.
  intros Hrun. destruct (cache_miss s) eqn:Hm;
    [|rewrite (get_access_token_hit _ Hm) in Hrun; discriminate].
  rewrite (get_access_token_miss _ Hm) in Hrun.
  destruct (configured cfg) eqn:Hc.
  - rewrite (exchange_outcome _ _ Hc) in Hrun.
    destruct (transport (token_request cfg) (env s)) as [[resp|e0] e'] eqn:Hr;
      [|injection Hrun as <- <-; split; [done|by left]].
    destruct (Z.eqb_spec (status_code resp) 200) as [H200|_];
      [|injection Hrun as <- <-; split; [done|by left]].
    destruct (json_body resp) as [[| | | | |fields]|] eqn:Hj;
      try (injection Hrun as <- <-; split; [done|by left]).
    destruct (declared_lifetime fields) eqn:Hl; [discriminate|].
    injection Hrun as <- <-. split; [done|]. right. by exists resp, e', fields.
  - rewrite exchange_unconfigured in Hrun by done.
    injection Hrun as <- <-. split; [done|by left].
Qed.

(** X3. An answer of the token endpoint with any status but 200 (other
    2xx statuses included) raises [SpotifyAuthError] with the status and
    the body in the message; one request has been sent and the cached
    token and expiry are as before. *)
Theorem rejected_exchange_raises_auth_error (s : State Env) (resp : Response)
    (e' : Env) :
  configured cfg = true →
  cache_miss s = true →
  transport (token_request cfg) (env s) = (Ok resp, e') →
  status_code resp ≠ 200 →
  get_access_token cfg s =
    (Raised (SpotifyAuthError
               ("Error obteniendo token de Spotify: "
                +:+ pretty (status_code resp) +:+ " " +:+ text resp)),
     after_request (token_request cfg) e' s).
Proof.
  intros Hc Hm Hr Hn.
  rewrite (get_access_token_miss _ Hm), (exchange_outcome _ _ Hc), Hr.
  by destruct (Z.eqb_spec (status_code resp) 200).
Qed.

(** X4. A 200 answer whose [expires_in] is not a number makes the call
    raise [TypeError] after the document's token has been stored: the
    slot then holds the new token with the old expiry. *)
Theorem unusable_lifetime_stores_token_and_raises (s : State Env) (resp : Response)
    (e' : Env) (fields : list (string * value)) :
  configured cfg = true →
  cache_miss s = true →
  transport (token_request cfg) (env s) = (Ok resp, e') →
  status_code resp = 200 →
  json_body resp = Some (VDict fields) →
  declared_lifetime fields = Raised TypeError →
  get_access_token cfg s =
    (Raised TypeError,
     {| env := e'; sent := sent s ++ [token_request cfg];
        _ACCESS_TOKEN := field "access_token" (VDict fields);
        _ACCESS_TOKEN_EXPIRES_AT := _ACCESS_TOKEN_EXPIRES_AT s |}).
Proof.
  intros Hc Hm Hr H200 Hj Hl.
  rewrite (get_access_token_miss _ Hm), (exchange_outcome _ _ Hc), Hr, H200, Hj, Hl.
  reflexivity.
Qed.

(** X18. A 200 answer whose [expires_in] is an integer too large for a
    float makes the call raise [OverflowError], again after the
    document's token has been stored and with the expiry left as it
    was. *)
Theorem huge_lifetime_stores_token_and_overflows (s : State Env) (resp : Response)
    (e' : Env) (fields : list (string * value)) (n : Z) :
  configured cfg = true →
  cache_miss s = true →
  transport (token_request cfg) (env s) = (Ok resp, e') →
  status_code resp = 200 →
  json_body resp = Some (VDict fields) →
  assoc "expires_in" fields = Some (VNum n) →
  float_limit <= Z.abs n →
  get_access_token cfg s =
    (Raised OverflowError,
     {| env := e'; sent := sent s ++ [token_request cfg];
        _ACCESS_TOKEN := field "access_token" (VDict fields);
        _ACCESS_TOKEN_EXPIRES_AT := _ACCESS_TOKEN_EXPIRES_AT s |}).
Proof.
  intros Hc Hm Hr H200 Hj He Hbig.
  assert (Hl : declared_lifetime fields = Raised OverflowError).
  { unfold declared_lifetime. rewrite He.
    change (default (VNum 3600) (Some (VNum n))) with (VNum n).
    unfold py_number, float_overflows.
    destruct (Z.leb_spec float_limit (Z.abs n)); [reflexivity|lia]. }
  rewrite (get_access_token_miss _ Hm), (exchange_outcome _ _ Hc), Hr, H200, Hj, Hl.
  reflexivity.
Qed.

(** X5. A token document without [expires_in] is cached as if it had
    declared 3600 seconds: the stored expiry is 3570 seconds after the
    clock reading taken at the start of the call. *)
Theorem absent_lifetime_defaults_to_an_hour (s : State Env) (resp : Response)
    (e' : Env) (fields : list (string * value)) :
  configured cfg = true →
  cache_miss s = true →
  transport (token_request cfg) (env s) = (Ok resp, e') →
  status_code resp = 200 →
  json_body resp = Some (VDict fields) →
  assoc "expires_in" fields = None →
  get_access_token cfg s =
    (Ok (py_or (field "access_token" (VDict fields)) (VStr "")),
     {| env := e'; sent := sent s ++ [token_request cfg];
        _ACCESS_TOKEN := field "access_token" (VDict fields);
        _ACCESS_TOKEN_EXPIRES_AT := clock (env s) + 3570 |}).
Proof.
  intros Hc Hm Hr H200 Hj He.
  rewrite (get_access_token_miss _ Hm).
  rewrite (exchange_granted _ _ _ _ _ 3600 Hc Hr H200 Hj).
  - do 3 f_equal. lia.
  - unfold declared_lifetime. by rewrite He.
Qed.

(** ** The lookups, case by case *)

Lemma lookup_outcome request_for project s :
  lookup cfg request_for project s =
  match get_access_token cfg s with
  | (Raised e, s1) => (Raised e, s1)
  | (Ok tok, s1) =>
      match transport (request_for tok) (env s1) with
      | (Ok resp, e2) =>
          (lookup_result project resp, after_request (request_for tok) e2 s1)
      | (Raised e, e2) => (Raised e, after_request (request_for tok) e2 s1)
      end
  end.
Proof.
  unfold lookup, bind, send, lift, after_request.
  destruct (get_access_token cfg s) as [[tok|e] s1]; [|reflexivity].
  destruct (transport (request_for tok) (env s1)) as [[resp|e] e2]; [|reflexivity].
  destruct (lookup_result project resp); reflexivity.
Qed.

Lemma lookup_slot request_for project s :
  same_slot (snd (get_access_token cfg s)) (snd (lookup cfg request_for project s)).
Proof.
  rewrite lookup_outcome. unfold same_slot.
  destruct (get_access_token cfg s) as [[tok|e] s1]; [|done].
  by destruct (transport (request_for tok) (env s1)) as [[resp|e] e2].
Qed.

Lemma lookup_warm request_for project s :
  cache_miss s = false →
  sent (snd (lookup cfg request_for project s))
  = sent s ++ [request_for (_ACCESS_TOKEN s)] ∧
  same_slot s (snd (lookup cfg request_for project s)).
Proof.
  intros Hm. rewrite lookup_outcome, (get_access_token_hit _ Hm). unfold same_slot.
  by destruct (transport (request_for (_ACCESS_TOKEN s)) (env s)) as [[resp|e] e2].
Qed.

(** X6. With a live token in the cache a lookup sends exactly one
    request, the GET for that identifier carrying the cached token, and
    leaves the cached token and expiry as they are. *)
Theorem warm_lookup_sends_one_request (k : string) (s : State Env) :
  cache_miss s = false →
  (sent (snd (get_track_info cfg k s))
   = sent s ++ [track_request k (_ACCESS_TOKEN s)] ∧
   same_slot s (snd (get_track_info cfg k s))) ∧
  (sent (snd (get_artist_info cfg k s))
   = sent s ++ [artist_request k (_ACCESS_TOKEN s)] ∧
   same_slot s (snd (get_artist_info cfg k s))).
Proof.
  intros Hm. split.
  - rewrite get_track_info_lookup. by apply lookup_warm.
  - rewrite get_artist_info_lookup. by apply lookup_warm.
Qed.

(** X7. What the catalogue answers never reaches the cache: after a
    lookup the cached token and expiry are what the token acquisition at
    the start of that lookup left, whether the lookup succeeded, found
    nothing, or raised (a 401 does not drop the token). *)
Theorem lookup_leaves_cache_to_acquisition (k : string) (s : State Env) :
  same_slot (snd (get_access_token cfg s)) (snd (get_track_info cfg k s)) ∧
  same_slot (snd (get_access_token cfg s)) (snd (get_artist_info cfg k s)).
Proof.
  split.
  - rewrite get_track_info_lookup. apply lookup_slot.
  - rewrite get_artist_info_lookup. apply lookup_slot.
Qed.

(** ** The projections *)

Lemma comprehension_artist_summary items : ∀ summaries,
  comprehension artist_summary items = Ok summaries →
  Forall (λ a, record_keys a = Some ["id"; "name"]) summaries.
Proof.
  induction items as [|a rest IH]; intros summaries H.
  - injection H as <-. constructor.
  - cbn [comprehension] in H. unfold and_then at 1 in H.
    destruct (artist_summary a) as [y|] eqn:Ha; [|discriminate].
    unfold and_then in H.
    destruct (comprehension artist_summary rest) as [ys|]; [|discriminate].
    injection H as <-. constructor; [|by apply IH].
    unfold artist_summary, py_get, and_then in Ha.
    destruct a; try discriminate. by injection Ha as <-.
Qed.

Lemma track_record_ok data info :
  track_record data = Ok info →
  ∃ fields album_id album_name summaries,
    data = VDict fields ∧
    Forall (λ a, record_keys a = Some ["id"; "name"]) summaries ∧
    info = VDict [("id", field "id" data);
                  ("name", field "name" data);
                  ("duration_ms", field "duration_ms" data);
                  ("explicit", field "explicit" data);
                  ("preview_url", field "preview_url" data);
                  ("album", VDict [("id", album_id); ("name", album_name)]);
                  ("artists", VList summaries)].
Proof.
  unfold track_record. destruct data as [| | | | |fields]; try discriminate.
  cbn [py_get and_then].
  destruct (default (VDict []) (assoc "album" fields)) as [| | | | |album];
    try discriminate.
  cbn [py_get and_then].
  destruct (py_iter (default (VList []) (assoc "artists" fields))) as [items|];
    [|discriminate].
  cbn [and_then].
  destruct (comprehension artist_summary items) as [summaries|] eqn:Hs;
    [|discriminate].
  cbn [and_then]. intros [= <-].
  exists fields, (default VNone (assoc "id" album)),
    (default VNone (assoc "name" album)), summaries.
  split; [done|]. split; [by eapply comprehension_artist_summary|done].
Qed.

Lemma artist_record_ok data info :
  artist_record data = Ok info →
  ∃ fields total,
    data = VDict fields ∧
    info = VDict [("id", field "id" data);
                  ("name", field "name" data);
                  ("genres", default (VList []) (assoc "genres" fields));
                  ("popularity", field "popularity" data);
                  ("followers", total)].
Proof.
  unfold artist_record. destruct data as [| | | | |fields]; try discriminate.
  cbn [py_get and_then].
  destruct (default (VDict []) (assoc "followers" fields)) as [| | | | |followers];
    try discriminate.
  cbn [py_get and_then]. intros [= <-]. by eexists _, _.
Qed.

Lemma lookup_result_empty project resp :
  (∀ data, project data ≠ Ok (VDict [])) →
  lookup_result project resp = Ok (VDict []) ↔ status_code resp = 404.
Proof.
  intros Hp. split; [|apply lookup_result_404].
  unfold lookup_result.
  destruct (Z.eqb_spec (status_code resp) 404) as [|_]; [done|].
  unfold and_then. destruct (raise_for_status resp); [|discriminate].
  destruct (resp_json resp) as [data|]; [|discriminate].
  intros H. by apply Hp in H.
Qed.

Lemma track_record_not_empty data : track_record data ≠ Ok (VDict []).
Proof.
  intros H. apply track_record_ok in H as (? & ? & ? & ? & _ & _ & H).
  discriminate.
Qed.

Lemma artist_record_not_empty data : artist_record data ≠ Ok (VDict []).
Proof.
  intros H. apply artist_record_ok in H as (? & ? & _ & H). discriminate.
Qed.

(** X8. Once a response has been delivered, a lookup returns the empty
    record exactly when the status is 404: no document the service can
    send is projected to the empty record. *)
Theorem empty_record_iff_not_found (k : string) (s s1 : State Env) (tok : value)
    (resp : Response) (e2 : Env) :
  get_access_token cfg s = (Ok tok, s1) →
  (transport (track_request k tok) (env s1) = (Ok resp, e2) →
   fst (get_track_info cfg k s) = Ok (VDict []) ↔ status_code resp = 404) ∧
  (transport (artist_request k tok) (env s1) = (Ok resp, e2) →
   fst (get_artist_info cfg k s) = Ok (VDict []) ↔ status_code resp = 404).
Proof.
  intros Ht. split; intros Hr.
  - rewrite get_track_info_lookup, (lookup_delivered _ _ _ _ _ _ _ Ht Hr).
    apply lookup_result_empty, track_record_not_empty.
  - rewrite get_artist_info_lookup, (lookup_delivered _ _ _ _ _ _ _ Ht Hr).
    apply lookup_result_empty, artist_record_not_empty.
Qed.

Lemma lookup_ok_inv request_for project s info :
  fst (lookup cfg request_for project s) = Ok info →
  info = VDict [] ∨ ∃ data, project data = Ok info.
Proof.
  rewrite lookup_outcome.
  destruct (get_access_token cfg s) as [[tok|e] s1]; [|discriminate].
  destruct (transport (request_for tok) (env s1)) as [[resp|e] e2]; [|discriminate].
  cbn [fst]. unfold lookup_result.
  destruct (status_code resp =? 404); [intros [= <-]; by left|].
  unfold and_then. destruct (raise_for_status resp); [|discriminate].
  destruct (resp_json resp) as [data|]; [|discriminate].
  intros H. right. by exists data.
Qed.

(** X9. A record returned by [get_track_info] is either empty or has
    exactly the seven keys id, name, duration_ms, explicit, preview_url,
    album, artists, in that order; its album is a record with keys id
    and name, and its artists are a list of such records.  No key is ever
    left out. *)
Theorem track_record_shape (k : string) (s : State Env) (info : value) :
  fst (get_track_info cfg k s) = Ok info →
  info = VDict [] ∨
  (record_keys info
   = Some ["id"; "name"; "duration_ms"; "explicit"; "preview_url"; "album"; "artists"] ∧
   record_keys (field "album" info) = Some ["id"; "name"] ∧
   ∃ summaries, field "artists" info = VList summaries ∧
                Forall (λ a, record_keys a = Some ["id"; "name"]) summaries).
Proof.
  rewrite get_track_info_lookup. intros H.
  destruct (lookup_ok_inv _ _ _ _ H) as [->|[data Hd]]; [by left|]. right.
  apply track_record_ok in Hd as (fields & aid & aname & summaries & _ & Hs & ->).
  split; [reflexivity|]. split; [reflexivity|]. by exists summaries.
Qed.

(** X10. A record returned by [get_artist_info] is either empty or has
    exactly the five keys id, name, genres, popularity, followers, in
    that order. *)
Theorem artist_record_shape (k : string) (s : State Env) (info : value) :
  fst (get_artist_info cfg k s) = Ok info →
  info = VDict [] ∨
  record_keys info = Some ["id"; "name"; "genres"; "popularity"; "followers"].
Proof.
  rewrite get_artist_info_lookup. intros H.
  destruct (lookup_ok_inv _ _ _ _ H) as [->|[data Hd]]; [by left|]. right.
  by apply artist_record_ok in Hd as (fields & total & _ & ->).
Qed.

Lemma lookup_result_200 project resp data :
  status_code resp = 200 → json_body resp = Some data →
  lookup_result project resp = project data.
Proof.
  intros H200 Hj. unfold lookup_result, raise_for_status, resp_json, and_then.
  rewrite H200, Hj. reflexivity.
Qed.

(** X11. For a 200 answer carrying a JSON object: when the document has
    neither album nor artists, [get_track_info] returns the record with
    album [{id: None, name: None}] and no artists, every other field
    being the document's value or [None]; when the album is present but
    not an object (null, say) it raises [AttributeError]; when the album
    is fine and artists is null it raises [TypeError]. *)
Theorem track_document_defaults_and_nulls (k : string) (s s1 : State Env)
    (tok : value) (resp : Response) (e2 : Env) (fields : list (string * value)) :
  get_access_token cfg s = (Ok tok, s1) →
  transport (track_request k tok) (env s1) = (Ok resp, e2) →
  status_code resp = 200 →
  json_body resp = Some (VDict fields) →
  (assoc "album" fields = None → assoc "artists" fields = None →
   fst (get_track_info cfg k s)
   = Ok (VDict [("id", field "id" (VDict fields));
                ("name", field "name" (VDict fields));
                ("duration_ms", field "duration_ms" (VDict fields));
                ("explicit", field "explicit" (VDict fields));
                ("preview_url", field "preview_url" (VDict fields));
                ("album", VDict [("id", VNone); ("name", VNone)]);
                ("artists", VList [])])) ∧
  (∀ album, assoc "album" fields = Some album → record_keys album = None →
   fst (get_track_info cfg k s) = Raised AttributeError) ∧
  (record_keys (default (VDict []) (assoc "album" fields)) ≠ None →
   assoc "artists" fields = Some VNone →
   fst (get_track_info cfg k s) = Raised TypeError).
Proof.
  intros Ht Hr H200 Hj.
  rewrite get_track_info_lookup, (lookup_delivered _ _ _ _ _ _ _ Ht Hr).
  rewrite (lookup_result_200 _ _ _ H200 Hj). cbn [fst].
  unfold track_record. cbn [py_get and_then]. repeat split.
  - intros Ha Hs. rewrite Ha, Hs. reflexivity.
  - intros album Ha Hk. rewrite Ha. cbn [default from_option].
    destruct album; try reflexivity. discriminate.
  - intros Hk Hs. rewrite Hs.
    destruct (default (VDict []) (assoc "album" fields)); try done.
Qed.

(** X12. For a 200 answer carrying a JSON object: when the document has
    neither genres nor followers, [get_artist_info] returns the record
    with genres [[]] and followers [None]; when followers is present but
    not an object (null, say) it raises [AttributeError]. *)
Theorem artist_document_defaults_and_nulls (k : string) (s s1 : State Env)
    (tok : value) (resp : Response) (e2 : Env) (fields : list (string * value)) :
  get_access_token cfg s = (Ok tok, s1) →
  transport (artist_request k tok) (env s1) = (Ok resp, e2) →
  status_code resp = 200 →
  json_body resp = Some (VDict fields) →
  (assoc "genres" fields = None → assoc "followers" fields = None →
   fst (get_artist_info cfg k s)
   = Ok (VDict [("id", field "id" (VDict fields));
                ("name", field "name" (VDict fields));
                ("genres", VList []);
                ("popularity", field "popularity" (VDict fields));
                ("followers", VNone)])) ∧
  (∀ followers, assoc "followers" fields = Some followers →
   record_keys followers = None →
   fst (get_artist_info cfg k s) = Raised AttributeError).
Proof.
  intros Ht Hr H200 Hj.
  rewrite get_artist_info_lookup, (lookup_delivered _ _ _ _ _ _ _ Ht Hr).
  rewrite (lookup_result_200 _ _ _ H200 Hj). cbn [fst].
  unfold artist_record. cbn [py_get and_then]. split.
  - intros Hg Hf. rewrite Hg, Hf. reflexivity.
  - intros followers Hf Hk. rewrite Hf. cbn [default from_option].
    destruct followers; try reflexivity. discriminate.
Qed.

(** X13. When the token endpoint answers 200 without a token and with a
    lifetime the arithmetic accepts (absent, or a number that fits a
    float), a lookup goes on all the same: after the token request it
    sends the GET with the header [Authorization: Bearer ] and nothing
    after it. *)
Theorem tokenless_lookup_sends_bare_bearer (k : string) (s : State Env)
    (resp : Response) (e' : Env) (fields : list (string * value)) (lifetime : Z) :
  configured cfg = true →
  cache_miss s = true →
  transport (token_request cfg) (env s) = (Ok resp, e') →
  status_code resp = 200 →
  json_body resp = Some (VDict fields) →
  assoc "access_token" fields = None →
  declared_lifetime fields = Ok lifetime →
  sent (snd (get_track_info cfg k s))
  = sent s ++ [token_request cfg;
               mkRequest GET (BASE_API_URL +:+ "/tracks/" +:+ k)
                 [("Authorization", "Bearer ")] []] ∧
  sent (snd (get_artist_info cfg k s))
  = sent s ++ [token_request cfg;
               mkRequest GET (BASE_API_URL +:+ "/artists/" +:+ k)
                 [("Authorization", "Bearer ")] []].
Proof.
  intros Hc Hm Hr H200 Hj Hnone Hl.
  assert (Ht : get_access_token cfg s =
               (Ok (VStr ""),
                {| env := e'; sent := sent s ++ [token_request cfg];
                   _ACCESS_TOKEN := VNone;
                   _ACCESS_TOKEN_EXPIRES_AT := clock (env s) + lifetime - 30 |})).
  { rewrite (get_access_token_miss _ Hm).
    rewrite (exchange_granted _ _ _ _ _ _ Hc Hr H200 Hj Hl).
    unfold field. by rewrite Hnone. }
  split.
  - rewrite get_track_info_lookup, lookup_outcome, Ht. cbn [env].
    destruct (transport (track_request k (VStr "")) e') as [[r|e] e2];
      cbn [snd after_request sent]; by rewrite <- app_assoc.
  - rewrite get_artist_info_lookup, lookup_outcome, Ht. cbn [env].
    destruct (transport (artist_request k (VStr "")) e') as [[r|e] e2];
      cbn [snd after_request sent]; by rewrite <- app_assoc.
Qed.

(** ** Batches: composition and traffic *)

Lemma get_access_token_sends s :
  sent (snd (get_access_token cfg s))
  = sent s ++ (if cache_miss s && configured cfg then [token_request cfg] else []).
Proof.
  destruct (cache_miss s) eqn:Hm.
  - rewrite (get_access_token_miss _ Hm). destruct (configured cfg) eqn:Hc.
    + by apply exchange_sends.
    + rewrite exchange_unconfigured by done. cbn. by rewrite app_nil_r.
  - rewrite (get_access_token_hit _ Hm). cbn. by rewrite app_nil_r.
Qed.

Lemma token_request_module : module_request cfg (token_request cfg).
Proof. by left. Qed.

Lemma token_traffic_module (b : bool) :
  Forall (module_request cfg) (if b then [token_request cfg] else []).
Proof.
  destruct b; [|constructor].
  constructor; [apply token_request_module|constructor].
Qed.

Lemma lookup_sends request_for project s :
  (∀ tok, module_request cfg (request_for tok)) →
  ∃ l, sent (snd (lookup cfg request_for project s)) = sent s ++ l ∧
       (length l ≤ 2)%nat ∧ Forall (module_request cfg) l ∧
       (configured cfg = true → (1 ≤ length l)%nat).
Proof.
  intros Hreq. rewrite lookup_outcome.
  pose proof (get_access_token_sends s) as Hs.
  destruct (get_access_token cfg s) as [[tok|e] s1] eqn:Ht; cbn [snd] in Hs.
  - exists ((if cache_miss s && configured cfg then [token_request cfg] else [])
            ++ [request_for tok]).
    split; [|split; [|split]].
    + destruct (transport (request_for tok) (env s1)) as [[r|e] e2];
        cbn [snd after_request sent]; by rewrite Hs, app_assoc.
    + rewrite length_app. destruct (cache_miss s && configured cfg); cbn; lia.
    + apply Forall_app. split; [apply token_traffic_module|].
      constructor; [apply Hreq|constructor].
    + intros _. rewrite length_app. cbn. lia.
  - exists (if cache_miss s && configured cfg then [token_request cfg] else []).
    cbn [snd]. split; [done|].
    split; [destruct (cache_miss s && configured cfg); cbn; lia|].
    split; [apply token_traffic_module|].
    intros Hc. destruct (cache_miss s) eqn:Hm.
    + rewrite Hc. cbn. lia.
    + rewrite (get_access_token_hit _ Hm) in Ht. discriminate.
Qed.

Lemma track_lookup_sends k s :
  ∃ l, sent (snd (get_track_info cfg k s)) = sent s ++ l ∧
       (length l ≤ 2)%nat ∧ Forall (module_request cfg) l ∧
       (configured cfg = true → (1 ≤ length l)%nat).
Proof.
  rewrite get_track_info_lookup. apply lookup_sends.
  intros tok. right. exists k, tok. by left.
Qed.

Lemma artist_lookup_sends k s :
  ∃ l, sent (snd (get_artist_info cfg k s)) = sent s ++ l ∧
       (length l ≤ 2)%nat ∧ Forall (module_request cfg) l ∧
       (configured cfg = true → (1 ≤ length l)%nat).
Proof.
  rewrite get_artist_info_lookup. apply lookup_sends.
  intros tok. right. exists k, tok. by right.
Qed.

Section BatchTraffic.

Variable fetch : string → M Env value.

Lemma validate_loop_pair keys valid s :
  ∃ m, validate_loop fetch keys valid s
       = (Ok m, snd (validate_loop fetch keys valid s)).
Proof.
  destruct (validate_loop_ok fetch keys valid s) as [m Hm]. exists m.
  destruct (validate_loop fetch keys valid s) as [o s']. cbn in *. by subst.
Qed.

Lemma validate_loop_app l1 : ∀ l2 valid s m1 s1,
  validate_loop fetch l1 valid s = (Ok m1, s1) →
  validate_loop fetch (l1 ++ l2) valid s = validate_loop fetch l2 m1 s1.
Proof.
  induction l1 as [|k rest IH]; intros l2 valid s m1 s1 H.
  - cbn in H. by injection H as <- <-.
  - rewrite <- app_comm_cons, validate_loop_cons.
    rewrite validate_loop_cons in H. by apply IH.
Qed.

Lemma absorb_union k o valid : absorb k o valid = absorb k o ∅ ∪ valid.
Proof.
  unfold absorb. destruct o as [info|]; [|by rewrite (left_id_L ∅ (∪))].
  destruct (named info); [|by rewrite (left_id_L ∅ (∪))].
  by rewrite <- insert_union_l, (left_id_L ∅ (∪)).
Qed.

(** Entries already in the mapping only show through where the loop adds
    none; the state the loop ends in does not depend on them. *)
Lemma validate_loop_union keys : ∀ valid s m s',
  validate_loop fetch keys ∅ s = (Ok m, s') →
  validate_loop fetch keys valid s = (Ok (m ∪ valid), s').
Proof.
  induction keys as [|k rest IH]; intros valid s m s' H.
  - cbn in H. injection H as <- <-. cbn. by rewrite (left_id_L ∅ (∪)).
  - rewrite validate_loop_cons in H. rewrite validate_loop_cons.
    destruct (validate_loop_pair rest ∅ (snd (fetch k s))) as [m0 Hm0].
    rewrite (IH _ _ _ _ Hm0) in H. injection H as <- <-.
    rewrite (IH _ _ _ _ Hm0), (absorb_union k _ valid).
    by rewrite (assoc_L (∪)).
Qed.

Hypothesis fetch_sends : ∀ k s,
  ∃ l, sent (snd (fetch k s)) = sent s ++ l ∧
       (length l ≤ 2)%nat ∧ Forall (module_request cfg) l ∧
       (configured cfg = true → (1 ≤ length l)%nat).

Lemma validate_loop_sends keys : ∀ valid s,
  ∃ l, sent (snd (validate_loop fetch keys valid s)) = sent s ++ l ∧
       (length l ≤ 2 * length keys)%nat ∧ Forall (module_request cfg) l ∧
       (configured cfg = true → (length keys ≤ length l)%nat).
Proof.
  induction keys as [|k rest IH]; intros valid s.
  - exists []. cbn. rewrite app_nil_r. repeat split; [lia|constructor|lia].
  - rewrite validate_loop_cons.
    destruct (fetch_sends k s) as (l1 & H1 & Hle1 & Hp1 & Hge1).
    destruct (IH (absorb k (fst (fetch k s)) valid) (snd (fetch k s)))
      as (l2 & H2 & Hle2 & Hp2 & Hge2).
    exists (l1 ++ l2). rewrite H2, H1, app_assoc, length_app. cbn [length].
    split; [done|]. split; [lia|]. split; [by apply Forall_app|].
    intros Hc. specialize (Hge1 Hc). specialize (Hge2 Hc). lia.
Qed.

End BatchTraffic.

(** X14. A batch over a concatenation is the batch over the first list
    followed, from the state it leaves, by the batch over the second;
    where both have an entry for an identifier the later one stands. *)
Theorem batch_of_concatenation (l1 l2 : list string) (s s1 s2 : State Env)
    (m1 m2 : gmap string value) :
  (validate_tracks_batch cfg l1 s = (Ok m1, s1) →
   validate_tracks_batch cfg l2 s1 = (Ok m2, s2) →
   validate_tracks_batch cfg (l1 ++ l2) s = (Ok (m2 ∪ m1), s2)) ∧
  (validate_artists_batch cfg l1 s = (Ok m1, s1) →
   validate_artists_batch cfg l2 s1 = (Ok m2, s2) →
   validate_artists_batch cfg (l1 ++ l2) s = (Ok (m2 ∪ m1), s2)).
Proof.
  unfold validate_tracks_batch, validate_artists_batch.
  rewrite !validate_tracks_loop_shape, !validate_artists_loop_shape.
  split; intros H1 H2.
  - rewrite (validate_loop_app _ _ _ _ _ _ _ H1). by apply validate_loop_union.
  - rewrite (validate_loop_app _ _ _ _ _ _ _ H1). by apply validate_loop_union.
Qed.

(** X15. An identifier that one of the batch's fetches validated is in
    the result, whatever the other fetches of the same identifier did:
    a later failure does not remove an entry. *)
Theorem validated_identifier_stays (ids : list string) (s s0 : State Env)
    (k : string) :
  (∀ m, fst (validate_tracks_batch cfg ids s) = Ok m →
        fetched_at (get_track_info cfg) ids s k s0 →
        fetch_failed (fst (get_track_info cfg k s0)) = false →
        is_Some (m !! k)) ∧
  (∀ m, fst (validate_artists_batch cfg ids s) = Ok m →
        fetched_at (get_artist_info cfg) ids s k s0 →
        fetch_failed (fst (get_artist_info cfg k s0)) = false →
        is_Some (m !! k)).
Proof.
  unfold validate_tracks_batch, validate_artists_batch.
  rewrite validate_tracks_loop_shape, validate_artists_loop_shape.
  split; intros m Hrun Hf Hok.
  - destruct (m !! k) eqn:Hk; [by eexists|].
    apply (validate_loop_absent _ _ _ _ _ k Hrun) in Hk as [_ Hall].
    rewrite (Hall _ Hf) in Hok. discriminate.
  - destruct (m !! k) eqn:Hk; [by eexists|].
    apply (validate_loop_absent _ _ _ _ _ k Hrun) in Hk as [_ Hall].
    rewrite (Hall _ Hf) in Hok. discriminate.
Qed.

(** X16. A batch only adds to the requests sent, at most two per
    identifier (a token request and a lookup), and with the
    configuration present at least one per identifier. *)
Theorem batch_request_bounds (ids : list string) (s : State Env) :
  (∃ l, sent (snd (validate_tracks_batch cfg ids s)) = sent s ++ l ∧
        (length l ≤ 2 * length ids)%nat ∧
        (configured cfg = true → (length ids ≤ length l)%nat)) ∧
  (∃ l, sent (snd (validate_artists_batch cfg ids s)) = sent s ++ l ∧
        (length l ≤ 2 * length ids)%nat ∧
        (configured cfg = true → (length ids ≤ length l)%nat)).
Proof.
  unfold validate_tracks_batch, validate_artists_batch.
  rewrite validate_tracks_loop_shape, validate_artists_loop_shape. split.
  - destruct (validate_loop_sends _ track_lookup_sends ids ∅ s)
      as (l & H & Hle & _ & Hge). by exists l.
  - destruct (validate_loop_sends _ artist_lookup_sends ids ∅ s)
      as (l & H & Hle & _ & Hge). by exists l.
Qed.

Lemma call_sends c s :
  ∃ l, sent (run_call cfg c s) = sent s ++ l ∧ Forall (module_request cfg) l.
Proof.
  destruct c as [|k|k|ids|ids]; cbn [run_call].
  - rewrite get_access_token_sends. eexists. split; [done|].
    apply token_traffic_module.
  - destruct (track_lookup_sends k s) as (l & H & _ & Hp & _). by exists l.
  - destruct (artist_lookup_sends k s) as (l & H & _ & Hp & _). by exists l.
  - unfold validate_tracks_batch. rewrite validate_tracks_loop_shape.
    destruct (validate_loop_sends _ track_lookup_sends ids ∅ s)
      as (l & H & _ & Hp & _). by exists l.
  - unfold validate_artists_batch. rewrite validate_artists_loop_shape.
    destruct (validate_loop_sends _ artist_lookup_sends ids ∅ s)
      as (l & H & _ & Hp & _). by exists l.
Qed.

(** X17. In every state the module can be in, each request sent so far
    is the token request (the only one carrying the Basic credentials,
    and the only POST) or the GET of a track or an artist carrying a
    bearer token: nothing else ever goes out. *)
Theorem only_module_requests_are_sent (s : State Env) :
  reachable cfg s → Forall (module_request cfg) (sent s).
Proof.
  intros Hr. induction Hr as [e|c s Hr IH|e s Hr IH].
  - constructor.
  - destruct (call_sends c s) as (l & -> & Hl). by apply Forall_app.
  - exact IH.
Qed.

End Facts.

(** * The scripted world: scenarios, instances and counterexamples *)

(** The scenario of the specification: the known track is kept, the
    identifier the service does not know is dropped. *)
Example rick_scenario :
  fst (validate_tracks_batch app_config [rick_id; "bogus-id"] (initial_state healthy))
  = Ok {[ rick_id := VDict [("id", VStr rick_id);
                            ("name", VStr "Never Gonna Give You Up")] ]}.
Proof. vm_compute. reflexivity. Qed.

Example rick_lookup :
  fst (get_track_info app_config rick_id (initial_state healthy))
  = Ok (VDict [("id", VStr rick_id);
               ("name", VStr "Never Gonna Give You Up");
               ("duration_ms", VNone);
               ("explicit", VNone);
               ("preview_url", VNone);
               ("album", VDict [("id", VNone); ("name", VNone)]);
               ("artists", VList [])]).
Proof. vm_compute. reflexivity. Qed.

Lemma healthy_token :
  get_access_token app_config (initial_state healthy) = (Ok (VStr "BQD-token"), warmed_up).
Proof. vm_compute. reflexivity. Qed.

Lemma batch_absorbs_fetch_failures_witness :
  ∃ m, fst (validate_tracks_batch app_config [rick_id; "bogus-id"] (initial_state healthy))
       = Ok m ∧ m !! "bogus-id" = None.
Proof.
  destruct (batch_absorbs_fetch_failures app_config [rick_id; "bogus-id"]
              (initial_state healthy)) as ((m & Hm & Habs) & _).
  exists m. split; [exact Hm|]. apply Habs. intros s0 Hf.
  each_fetch. vm_compute. reflexivity.
Defined.

Lemma validate_tracks_batch_entries_witness :
  rick_id ∈ [rick_id; "bogus-id"] ∧
  ∃ s0 info,
    fetched_at (get_track_info app_config) [rick_id; "bogus-id"]
      (initial_state healthy) rick_id s0 ∧
    fst (get_track_info app_config rick_id s0) = Ok info ∧
    truthy (field "id" info) = true ∧
    truthy (field "name" info) = true ∧
    VDict [("id", VStr rick_id); ("name", VStr "Never Gonna Give You Up")]
    = VDict [("id", field "id" info); ("name", field "name" info)].
Proof.
  apply (validate_tracks_batch_entries app_config [rick_id; "bogus-id"]
           (initial_state healthy)
           {[ rick_id := VDict [("id", VStr rick_id);
                                ("name", VStr "Never Gonna Give You Up")] ]}).
  - vm_compute. reflexivity.
  - vm_compute. reflexivity.
Defined.

(** C3 as stated fails: with the configuration missing, credential
    acquisition raises, yet a batch over a non-empty list raises nothing
    and returns the empty mapping. *)
Lemma batch_swallows_missing_configuration :
  ¬ (∀ (Env : Type) (RT : Runtime Env) (cfg : Config) (ids : list string)
       (s : State Env) (e : exn),
       ids ≠ [] →
       fst (get_access_token cfg s) = Raised e →
       fst (validate_tracks_batch cfg ids s) = Raised e).
Proof.
  intros H.
  specialize (H Script scripted no_config [rick_id] (initial_state healthy)
                ConfigurationError).
  assert (Hrun : fst (validate_tracks_batch no_config [rick_id] (initial_state healthy))
                 = Ok ∅) by (vm_compute; reflexivity).
  assert (Hraised : fst (validate_tracks_batch no_config [rick_id]
                           (initial_state healthy))
                    = Raised ConfigurationError).
  { apply H; [discriminate|vm_compute; reflexivity]. }
  rewrite Hrun in Hraised. discriminate Hraised.
Qed.

Lemma batch_absorbs_credential_failure_witness :
  validate_tracks_batch no_config [rick_id; "bogus-id"] (initial_state healthy)
  = (Ok ∅, initial_state healthy) ∧
  validate_artists_batch no_config [rick_id; "bogus-id"] (initial_state healthy)
  = (Ok ∅, initial_state healthy) ∧
  validate_tracks_loop no_config [rick_id; "bogus-id"] ∅ (initial_state healthy)
  = validate_tracks_loop no_config ["bogus-id"] ∅ (initial_state healthy).
Proof.
  destruct (batch_absorbs_credential_failure no_config [rick_id; "bogus-id"]
              (initial_state healthy)) as [_ Hall].
  destruct (batch_absorbs_credential_failure no_config ["bogus-id"]
              (initial_state healthy)) as [Hstep _].
  destruct Hall as [Ht Ha]; [reflexivity|constructor|].
  split; [exact Ht|]. split; [exact Ha|].
  apply (Hstep rick_id ∅ ConfigurationError (initial_state healthy)).
  vm_compute. reflexivity.
Defined.

Lemma missing_configuration_raises_before_any_request_witness :
  get_access_token no_config (initial_state healthy)
  = (Raised ConfigurationError, initial_state healthy) ∧
  sent (snd (get_access_token no_config (initial_state healthy))) = [].
Proof.
  apply missing_configuration_raises_before_any_request.
  - left. reflexivity.
  - constructor.
Defined.

Lemma not_found_is_empty_record_witness :
  fst (get_track_info app_config "bogus-id" (initial_state healthy)) = Ok (VDict []) ∧
  fst (get_artist_info app_config "bogus-id" (initial_state rate_limited))
  = Raised (HTTPError 429).
Proof.
  split.
  - destruct (not_found_is_empty_record app_config "bogus-id" (initial_state healthy)
                warmed_up (VStr "BQD-token") not_found healthy) as [Htrack _].
    { vm_compute. reflexivity. }
    destruct Htrack as [H404 _]; [vm_compute; reflexivity|].
    rewrite H404; reflexivity.
  - destruct (not_found_is_empty_record app_config "bogus-id"
                (initial_state rate_limited)
                (snd (get_access_token app_config (initial_state rate_limited)))
                (VStr "BQD-token")
                {| status_code := 429; text := ""; json_body := None |}
                rate_limited) as [_ Hartist].
    { vm_compute. reflexivity. }
    destruct Hartist as [_ Herr]; [vm_compute; reflexivity|].
    rewrite Herr; [reflexivity|cbn; lia|cbn; lia].
Defined.

(** C5 as stated fails: a status outside 2xx that is neither 404 nor an
    error status, with a document in the body, is read like a success. *)
Lemma non_error_status_is_not_raised :
  ¬ (∀ (Env : Type) (RT : Runtime Env) (cfg : Config) (k : string)
       (s s1 : State Env) (tok : value) (resp : Response) (e2 : Env),
       get_access_token cfg s = (Ok tok, s1) →
       transport (track_request k tok) (env s1) = (Ok resp, e2) →
       ¬ (200 <= status_code resp < 300) →
       status_code resp ≠ 404 →
       ∃ e, fst (get_track_info cfg k s) = Raised e).
Proof.
  intros H.
  destruct (H Script scripted app_config rick_id (initial_state multiple_choices)
              (snd (get_access_token app_config (initial_state multiple_choices)))
              (VStr "BQD-token")
              {| status_code := 300; text := ""; json_body := Some rick_document |}
              multiple_choices) as [e He].
  - vm_compute. reflexivity.
  - vm_compute. reflexivity.
  - cbn. lia.
  - cbn. lia.
  - vm_compute in He. discriminate He.
Qed.

Lemma error_status_raises_and_is_omitted_witness :
  fst (get_track_info app_config rick_id (initial_state rate_limited))
  = Raised (HTTPError 429) ∧
  ∃ m, fst (validate_artists_batch app_config [rick_id] (initial_state rate_limited))
       = Ok m ∧ m !! rick_id = None.
Proof.
  destruct (error_status_raises_and_is_omitted app_config [rick_id]
              (initial_state rate_limited)) as (Hone & _ & Hall).
  split.
  - destruct (Hone rick_id (VStr "BQD-token")
                (snd (get_access_token app_config (initial_state rate_limited)))
                {| status_code := 429; text := ""; json_body := None |}
                rate_limited) as [Htrack _].
    + vm_compute. reflexivity.
    + cbn. lia.
    + cbn. lia.
    + destruct Htrack as [Hraise _]; [vm_compute; reflexivity|].
      rewrite Hraise. reflexivity.
  - apply Hall. intros s0 Hf. each_fetch.
    exists (VStr "BQD-token"),
      (snd (get_access_token app_config (initial_state rate_limited))),
      {| status_code := 429; text := ""; json_body := None |}, rate_limited.
    split; [vm_compute; reflexivity|]. split; [vm_compute; reflexivity|].
    cbn. lia.
Defined.

(** C6 as stated fails: a token declared to live ten seconds is past its
    margin the moment it is stored, so the second call, made at the same
    clock reading, posts a second token request. *)
Lemma short_lived_token_is_fetched_twice :
  ¬ (∀ (Env : Type) (RT : Runtime Env) (cfg : Config) (s s1 : State Env)
       (resp : Response) (e' : Env) (fields : list (string * value))
       (lifetime : Z) (tok : value),
       configured cfg = true →
       cache_miss s = true →
       transport (token_request cfg) (env s) = (Ok resp, e') →
       status_code resp = 200 →
       json_body resp = Some (VDict fields) →
       declared_lifetime fields = Ok lifetime →
       get_access_token cfg s = (Ok tok, s1) →
       truthy tok = true →
       clock (env s1) = clock (env s) →
       get_access_token cfg s1 = (Ok tok, s1)).
Proof.
  intros H.
  specialize (H Script scripted app_config (initial_state short_lived)
                (snd (get_access_token app_config (initial_state short_lived)))
                (token_document 10) short_lived
                [("access_token", VStr "BQD-token"); ("expires_in", VNum 10)]
                10 (VStr "BQD-token")).
  apply (f_equal (fun r => length (sent (snd r)))) in H;
    try (vm_compute; reflexivity).
  vm_compute in H. discriminate H.
Qed.

Lemma immediate_second_call_is_cached_witness :
  ∃ s1, get_access_token (RT := ticking) app_config
          (initial_state (mkTicking 1000 5 3600))
        = (Ok (VStr "BQD-token"), s1) ∧
        env s1 = mkTicking 1005 5 3600 ∧
        get_access_token (RT := ticking) app_config s1 = (Ok (VStr "BQD-token"), s1) ∧
        sent s1 = [token_request (RT := ticking) app_config].
Proof.
  apply (immediate_second_call_is_cached (RT := ticking) app_config
           (initial_state (mkTicking 1000 5 3600))
           (token_document 3600) (mkTicking 1005 5 3600)
           [("access_token", VStr "BQD-token"); ("expires_in", VNum 3600)] 3600);
    vm_compute; reflexivity.
Defined.

(** The bound of C6 is the right one: with a lifetime of 31 seconds and
    an exchange that takes 5, the second call posts again. *)
Example slow_exchange_is_fetched_twice :
  sent (snd (get_access_token (RT := ticking) app_config
               (snd (get_access_token (RT := ticking) app_config
                       (initial_state (mkTicking 1000 5 31))))))
  = [token_request (RT := ticking) app_config;
     token_request (RT := ticking) app_config].
Proof. vm_compute. reflexivity. Qed.


(** C8 as stated fails: a fresh token declared to live ten seconds is
    returned with ten seconds left. *)
Lemma short_lived_token_has_no_margin :
  ¬ (∀ (Env : Type) (RT : Runtime Env) (cfg : Config) (s s1 : State Env)
       (resp : Response) (e' : Env) (fields : list (string * value))
       (lifetime : Z) (tok : value),
       configured cfg = true →
       cache_miss s = true →
       transport (token_request cfg) (env s) = (Ok resp, e') →
       status_code resp = 200 →
       json_body resp = Some (VDict fields) →
       declared_lifetime fields = Ok lifetime →
       get_access_token cfg s = (Ok tok, s1) →
       truthy tok = true →
       30 <= remaining_validity (clock (env s)) lifetime (clock (env s1))).
Proof.
  intros H.
  specialize (H Script scripted app_config (initial_state short_lived)
                (snd (get_access_token app_config (initial_state short_lived)))
                (token_document 10) short_lived
                [("access_token", VStr "BQD-token"); ("expires_in", VNum 10)]
                10 (VStr "BQD-token")).
  assert (Hrem : 30 <= remaining_validity
                         (clock (env (initial_state short_lived))) 10
                         (clock (env (snd (get_access_token app_config
                                             (initial_state short_lived))))))
    by (apply H; vm_compute; reflexivity).
  vm_compute in Hrem. apply Hrem. reflexivity.
Qed.

Lemma returned_credential_margin_witness :
  ∃ s1, get_access_token app_config (initial_state healthy)
        = (Ok (VStr "BQD-token"), s1) ∧
        30 <= remaining_validity 1000 3600 (clock (env s1)) ∧
        get_access_token app_config (with_env (healthy_at 2000) s1)
        = (Ok (VStr "BQD-token"), with_env (healthy_at 2000) s1) ∧
        30 < remaining_validity 1000 3600 2000.
Proof.
  destruct (returned_credential_margin app_config (initial_state healthy)
              (token_document 3600) healthy
              [("access_token", VStr "BQD-token"); ("expires_in", VNum 3600)] 3600)
    as (s1 & Hrun & Henv & _ & Hmargin & Hhit); [vm_compute; reflexivity..|].
  exists s1. split; [exact Hrun|].
  rewrite healthy_token in Hrun. injection Hrun as <-.
  split.
  - apply Hmargin. vm_compute. discriminate.
  - apply (Hhit (with_env (healthy_at 2000) warmed_up)).
    + split; reflexivity.
    + vm_compute. reflexivity.
Defined.

(** C10 as stated fails: a 200 answer without a token whose lifetime is
    a string makes the call raise [TypeError]. *)
Lemma tokenless_answer_with_bad_lifetime_raises :
  ¬ (∀ (Env : Type) (RT : Runtime Env) (cfg : Config) (s : State Env)
       (resp : Response) (e' : Env) (fields : list (string * value)),
       configured cfg = true →
       cache_miss s = true →
       transport (token_request cfg) (env s) = (Ok resp, e') →
       status_code resp = 200 →
       json_body resp = Some (VDict fields) →
       assoc "access_token" fields = None →
       fst (get_access_token cfg s) = Ok (VStr "")).
Proof.
  intros H.
  assert (Hraised : fst (get_access_token app_config
                           (initial_state tokenless_bad_lifetime))
                    = Raised TypeError) by (vm_compute; reflexivity).
  rewrite (H Script scripted app_config (initial_state tokenless_bad_lifetime)
             {| status_code := 200; text := "";
                json_body := Some (VDict [("expires_in", VStr "soon")]) |}
             tokenless_bad_lifetime [("expires_in", VStr "soon")])
    in Hraised; [discriminate Hraised|vm_compute; reflexivity..].
Qed.

Lemma tokenless_answer_is_not_cached_witness :
  fst (get_access_token app_config (initial_state tokenless)) = Ok (VStr "") ∧
  _ACCESS_TOKEN (snd (get_access_token app_config (initial_state tokenless))) = VNone ∧
  ∀ s2 : State Script, _ACCESS_TOKEN s2 = VNone →
        get_access_token app_config s2
        = exchange_token app_config (clock (env s2)) s2 ∧
        sent (snd (get_access_token app_config s2))
        = sent s2 ++ [token_request app_config].
Proof.
  destruct (tokenless_answer_is_not_cached app_config (initial_state tokenless)
              {| status_code := 200; text := ""; json_body := Some (VDict []) |}
              tokenless [])
    as (Hok & Hslot & Hnext); [vm_compute; reflexivity..|].
  split; [|split; [exact Hslot|exact Hnext]].
  apply (Hok 3600). vm_compute. reflexivity.
Defined.

(** ** Instances of the further properties *)

Lemma returned_token_is_the_slot_witness :
  VStr "BQD-token" = py_or (_ACCESS_TOKEN warmed_up) (VStr "") ∧
  (truthy (VStr "BQD-token") = true ∨ VStr "BQD-token" = VStr "").
Proof.
  exact (returned_token_is_the_slot app_config (initial_state healthy) warmed_up
           (VStr "BQD-token") healthy_token).
Defined.

Lemma refusing_token :
  get_access_token app_config (initial_state refusing)
  = (Raised (SpotifyAuthError "Error obteniendo token de Spotify: 401 invalid_client"),
     after_request (token_request app_config) refusing (initial_state refusing)).
Proof. vm_compute. reflexivity. Qed.

Lemma failed_acquisition_keeps_expiry_witness :
  _ACCESS_TOKEN_EXPIRES_AT
    (after_request (token_request app_config) refusing (initial_state refusing))
  = _ACCESS_TOKEN_EXPIRES_AT (initial_state refusing).
Proof.
  exact (proj1 (failed_acquisition_keeps_expiry app_config (initial_state refusing)
                  _ _ refusing_token)).
Defined.

Lemma rejected_exchange_raises_auth_error_witness :
  get_access_token app_config (initial_state refusing)
  = (Raised (SpotifyAuthError
               ("Error obteniendo token de Spotify: "
                +:+ pretty 401 +:+ " " +:+ "invalid_client")),
     after_request (token_request app_config) refusing (initial_state refusing)).
Proof.
  apply (rejected_exchange_raises_auth_error app_config (initial_state refusing)
           {| status_code := 401; text := "invalid_client"; json_body := None |}
           refusing); try (vm_compute; reflexivity).
  cbn. lia.
Defined.

Lemma unusable_lifetime_stores_token_and_raises_witness :
  fst (get_access_token app_config (initial_state bad_lifetime)) = Raised TypeError ∧
  _ACCESS_TOKEN (snd (get_access_token app_config (initial_state bad_lifetime)))
  = VStr "BQD-token" ∧
  _ACCESS_TOKEN_EXPIRES_AT (snd (get_access_token app_config (initial_state bad_lifetime)))
  = 0.
Proof.
  rewrite (unusable_lifetime_stores_token_and_raises app_config
             (initial_state bad_lifetime)
             {| status_code := 200; text := "";
                json_body := Some (VDict [("access_token", VStr "BQD-token");
                                          ("expires_in", VStr "soon")]) |}
             bad_lifetime
             [("access_token", VStr "BQD-token"); ("expires_in", VStr "soon")]);
    [repeat split|vm_compute; reflexivity..].
Defined.

Lemma huge_lifetime_stores_token_and_overflows_witness :
  fst (get_access_token app_config (initial_state huge_lifetime)) = Raised OverflowError ∧
  _ACCESS_TOKEN (snd (get_access_token app_config (initial_state huge_lifetime)))
  = VStr "BQD-token" ∧
  _ACCESS_TOKEN_EXPIRES_AT (snd (get_access_token app_config (initial_state huge_lifetime)))
  = 0.
Proof.
  rewrite (huge_lifetime_stores_token_and_overflows app_config
             (initial_state huge_lifetime)
             (token_document (10 ^ 400)) huge_lifetime
             [("access_token", VStr "BQD-token"); ("expires_in", VNum (10 ^ 400))]
             (10 ^ 400));
    [repeat split|vm_compute; reflexivity..|vm_compute; discriminate].
Defined.

Lemma absent_lifetime_defaults_to_an_hour_witness :
  ∃ s1, get_access_token app_config (initial_state no_lifetime)
        = (Ok (VStr "BQD-token"), s1) ∧
        _ACCESS_TOKEN_EXPIRES_AT s1 = 4570.
Proof.
  eexists. split.
  - apply (absent_lifetime_defaults_to_an_hour app_config (initial_state no_lifetime)
             {| status_code := 200; text := "";
                json_body := Some (VDict [("access_token", VStr "BQD-token")]) |}
             no_lifetime [("access_token", VStr "BQD-token")]);
      vm_compute; reflexivity.
  - reflexivity.
Defined.

Lemma warm_lookup_sends_one_request_witness :
  sent (snd (get_track_info app_config rick_id warmed_up))
  = sent warmed_up ++ [track_request rick_id (VStr "BQD-token")] ∧
  same_slot warmed_up (snd (get_track_info app_config rick_id warmed_up)).
Proof.
  apply (warm_lookup_sends_one_request app_config rick_id warmed_up).
  vm_compute. reflexivity.
Defined.

Lemma empty_record_iff_not_found_witness :
  fst (get_track_info app_config "bogus-id" (initial_state healthy)) = Ok (VDict []) ↔
  status_code not_found = 404.
Proof.
  apply (empty_record_iff_not_found app_config "bogus-id" (initial_state healthy)
           warmed_up (VStr "BQD-token") not_found healthy healthy_token).
  vm_compute. reflexivity.
Defined.

Lemma track_record_shape_witness :
  ∃ info, fst (get_track_info app_config rick_id (initial_state healthy)) = Ok info ∧
          (info = VDict [] ∨
           (record_keys info
            = Some ["id"; "name"; "duration_ms"; "explicit"; "preview_url";
                    "album"; "artists"] ∧
            record_keys (field "album" info) = Some ["id"; "name"] ∧
            ∃ summaries, field "artists" info = VList summaries ∧
                         Forall (λ a, record_keys a = Some ["id"; "name"]) summaries)).
Proof.
  eexists. split; [apply rick_lookup|].
  apply (track_record_shape app_config rick_id (initial_state healthy)).
  apply rick_lookup.
Defined.

Lemma rick_artist_lookup :
  fst (get_artist_info app_config rick_artist_id (initial_state artists_only))
  = Ok (VDict [("id", VStr rick_artist_id);
               ("name", VStr "Rick Astley");
               ("genres", VList []);
               ("popularity", VNone);
               ("followers", VNone)]).
Proof. vm_compute. reflexivity. Qed.

Lemma artist_record_shape_witness :
  ∃ info, fst (get_artist_info app_config rick_artist_id (initial_state artists_only))
          = Ok info ∧
          (info = VDict [] ∨
           record_keys info = Some ["id"; "name"; "genres"; "popularity"; "followers"]).
Proof.
  eexists. split; [apply rick_artist_lookup|].
  apply (artist_record_shape app_config rick_artist_id (initial_state artists_only)).
  apply rick_artist_lookup.
Defined.

Lemma track_document_defaults_and_nulls_witness :
  fst (get_track_info app_config rick_id (initial_state healthy))
  = Ok (VDict [("id", VStr rick_id);
               ("name", VStr "Never Gonna Give You Up");
               ("duration_ms", VNone);
               ("explicit", VNone);
               ("preview_url", VNone);
               ("album", VDict [("id", VNone); ("name", VNone)]);
               ("artists", VList [])]).
Proof.
  destruct (track_document_defaults_and_nulls app_config rick_id
              (initial_state healthy) warmed_up (VStr "BQD-token")
              {| status_code := 200; text := ""; json_body := Some rick_document |}
              healthy
              [("id", VStr rick_id); ("name", VStr "Never Gonna Give You Up")]
              healthy_token)
    as (Hdefault & _ & _); [vm_compute; reflexivity..|].
  apply Hdefault; reflexivity.
Defined.

Lemma artist_document_defaults_and_nulls_witness :
  fst (get_artist_info app_config rick_artist_id (initial_state artists_only))
  = Ok (VDict [("id", VStr rick_artist_id);
               ("name", VStr "Rick Astley");
               ("genres", VList []);
               ("popularity", VNone);
               ("followers", VNone)]).
Proof.
  destruct (artist_document_defaults_and_nulls app_config rick_artist_id
              (initial_state artists_only)
              (snd (get_access_token app_config (initial_state artists_only)))
              (VStr "BQD-token")
              {| status_code := 200; text := "";
                 json_body := Some (VDict [("id", VStr rick_artist_id);
                                           ("name", VStr "Rick Astley")]) |}
              artists_only
              [("id", VStr rick_artist_id); ("name", VStr "Rick Astley")])
    as (Hdefault & _); [vm_compute; reflexivity..|].
  apply Hdefault; reflexivity.
Defined.

Lemma tokenless_lookup_sends_bare_bearer_witness :
  sent (snd (get_track_info app_config rick_id (initial_state tokenless)))
  = [token_request app_config;
     mkRequest GET (BASE_API_URL +:+ "/tracks/" +:+ rick_id)
       [("Authorization", "Bearer ")] []].
Proof.
  apply (tokenless_lookup_sends_bare_bearer app_config rick_id
           (initial_state tokenless)
           {| status_code := 200; text := ""; json_body := Some (VDict []) |}
           tokenless [] 3600);
    vm_compute; reflexivity.
Defined.

Lemma batch_of_concatenation_witness :
  ∃ s2, validate_tracks_batch app_config ([rick_id] ++ ["bogus-id"])
          (initial_state healthy)
        = (Ok (∅ ∪ {[ rick_id := VDict [("id", VStr rick_id);
                                         ("name", VStr "Never Gonna Give You Up")] ]}),
           s2).
Proof.
  eexists.
  apply (proj1 (batch_of_concatenation app_config [rick_id] ["bogus-id"]
                  (initial_state healthy)
                  (snd (validate_tracks_batch app_config [rick_id]
                          (initial_state healthy)))
                  _ _ _)).
  - vm_compute. reflexivity.
  - vm_compute. reflexivity.
Defined.

Lemma validated_identifier_stays_witness :
  ∃ m, fst (validate_tracks_batch app_config [rick_id; "bogus-id"]
              (initial_state healthy)) = Ok m ∧
       is_Some (m !! rick_id).
Proof.
  eexists. split; [apply rick_scenario|].
  apply (proj1 (validated_identifier_stays app_config [rick_id; "bogus-id"]
                  (initial_state healthy) (initial_state healthy) rick_id)).
  - apply rick_scenario.
  - constructor.
  - vm_compute. reflexivity.
Defined.

Lemma batch_request_bounds_witness :
  ∃ l, sent (snd (validate_tracks_batch app_config [rick_id; "bogus-id"]
                    (initial_state healthy)))
       = sent (initial_state healthy) ++ l ∧
       (length l ≤ 4)%nat ∧ (2 ≤ length l)%nat.
Proof.
  destruct (batch_request_bounds app_config [rick_id; "bogus-id"]
              (initial_state healthy)) as ((l & Hl & Hle & Hge) & _).
  exists l. split; [exact Hl|]. split; [exact Hle|].
  apply Hge. reflexivity.
Defined.

Lemma only_module_requests_are_sent_witness :
  Forall (module_request app_config) (sent warmed_up).
Proof.
  apply only_module_requests_are_sent.
  apply reach_call, reach_init.
Defined.
